(** * discord-vc-tracker: the cache layer

    A shallow embedding of [src/cache/RedisCache.ts] (the networked cache
    backend) together with the collaborators it talks to: the JavaScript
    [JSON] built-ins and the Redis server behind the client handle.  The
    in-process backend ([MemoryCache]) is not among the sources covered here and
    is modelled from the specification in its own module.

    Conventions.
    - Times are milliseconds, counters are integers ([Z]).
    - [stats.hitRate] is a JavaScript number obtained by one division of two
      counters; it is kept as the exact quotient in [Q].
    - Cached values are JSON-like JavaScript values ([json]); JavaScript
      [null] is [JNull], which is also what [get] answers for "absent".
    - Strings are byte strings, as Redis stores them.
    - A call on the client that settles returns or raises.  A call that
      stays pending (the client keeps commands in its queue and retries
      while it has no socket) has no completion and is outside the model. *)

From Stdlib Require Import ZArith QArith List String Ascii Bool Lia.
From stdpp Require Import base gmap strings list fin_maps pretty.

Set Warnings "-register-all,-clear-no-such-hyp".

Local Open Scope string_scope.
Local Open Scope Z_scope.

(** ** JavaScript values and the JSON built-ins *)

Module JSON.

(** Values that survive [JSON.stringify].  Integral numbers are [JNum];
    a number literal with a fraction or an exponent denotes a double,
    which is not modelled and is kept by its literal text ([JDec]). *)
Inductive json : Type :=
| JNull
| JBool (b : bool)
| JNum (n : Z)
| JDec (lexeme : string)
| JStr (s : string)
| JArr (items : list json)
| JObj (fields : list (string * json)).

Definition code (c : ascii) : Z := Z.of_nat (nat_of_ascii c).
Definition chr (n : Z) : ascii := ascii_of_nat (Z.to_nat n).

Definition hex_digit (n : Z) : ascii :=
  if n <? 10 then chr (48 + n) else chr (87 + n).

(** [QuoteJSONString]: the escapes [JSON.stringify] writes. *)
Definition escape_char (c : ascii) : string :=
  let n := code c in
  if n =? 34 then String (chr 92) (String c EmptyString)
  else if n =? 92 then "\\"
  else if n =? 8 then "\b"
  else if n =? 12 then "\f"
  else if n =? 10 then "\n"
  else if n =? 13 then "\r"
  else if n =? 9 then "\t"
  else if n <? 32 then
    "\u00" +:+ String (hex_digit (n / 16)) (String (hex_digit (n mod 16)) EmptyString)
  else String c EmptyString.

Fixpoint escape (s : string) : string :=
  match s with
  | EmptyString => EmptyString
  | String c s' => escape_char c +:+ escape s'
  end.

Definition quote (s : string) : string :=
  String (chr 34) (escape s) +:+ String (chr 34) EmptyString.

Fixpoint join (sep : string) (l : list string) : string :=
  match l with
  | [] => EmptyString
  | [x] => x
  | x :: l' => x +:+ sep +:+ join sep l'
  end.

(** [JSON.stringify(value)] without indentation. *)
Fixpoint stringify (v : json) : string :=
  match v with
  | JNull => "null"
  | JBool true => "true"
  | JBool false => "false"
  | JNum n => pretty n
  | JDec lexeme => lexeme
  | JStr s => quote s
  | JArr items => "[" +:+ join "," (List.map stringify items) +:+ "]"
  | JObj fields =>
      "{" +:+
      join "," (List.map (fun kv => quote (fst kv) +:+ ":" +:+ stringify (snd kv))
                         fields) +:+
      "}"
  end.

(** *** [JSON.parse] *)

Definition is_ws (c : ascii) : bool :=
  let n := code c in (n =? 32) || (n =? 9) || (n =? 10) || (n =? 13).

Definition is_digit (c : ascii) : bool :=
  let n := code c in (48 <=? n) && (n <=? 57).

Fixpoint skip_ws (s : string) : string :=
  match s with
  | String c s' => if is_ws c then skip_ws s' else s
  | EmptyString => s
  end.

(** Leading decimal digits of [s]: their value, their number, the rest. *)
Fixpoint digits (acc : Z) (cnt : nat) (s : string) : Z * nat * string :=
  match s with
  | String c s' =>
      if is_digit c then digits (10 * acc + (code c - 48)) (S cnt) s'
      else (acc, cnt, s)
  | EmptyString => (acc, cnt, s)
  end.

Definition starts (c : Z) (s : string) : bool :=
  match s with
  | String d _ => code d =? c
  | EmptyString => false
  end.

Definition tail (s : string) : string :=
  match s with
  | String _ s' => s'
  | EmptyString => s
  end.

Definition consumed (s rest : string) : string :=
  substring 0 (String.length s - String.length rest)%nat s.

(** A number literal: an optional minus sign, an integer part without
    leading zero, an optional fraction, an optional exponent. *)
Definition parse_number (s : string) : option (json * string) :=
  let neg := starts 45 s in
  let s1 := if neg then tail s else s in
  let '(n, cnt, s2) := digits 0 0 s1 in
  if (cnt =? 0)%nat then None
  else if starts 48 s1 && (1 <? cnt)%nat then None
  else
    let frac :=
      if starts 46 s2 then
        let '(_, fc, s3) := digits 0 0 (tail s2) in
        if (fc =? 0)%nat then None else Some (true, s3)
      else Some (false, s2) in
    match frac with
    | None => None
    | Some (has_frac, s3) =>
        let expo :=
          if starts 101 s3 || starts 69 s3 then
            let s4 := tail s3 in
            let s5 := if starts 43 s4 || starts 45 s4 then tail s4 else s4 in
            let '(_, ec, s6) := digits 0 0 s5 in
            if (ec =? 0)%nat then None else Some (true, s6)
          else Some (false, s3) in
        match expo with
        | None => None
        | Some (has_exp, rest) =>
            if has_frac || has_exp then Some (JDec (consumed s rest), rest)
            else Some (JNum (if neg then - n else n), rest)
        end
    end.

Definition hex_val (c : ascii) : option Z :=
  let n := code c in
  if (48 <=? n) && (n <=? 57) then Some (n - 48)
  else if (97 <=? n) && (n <=? 102) then Some (n - 87)
  else if (65 <=? n) && (n <=? 70) then Some (n - 55)
  else None.

(** UTF-8 bytes of a [\uXXXX] code unit (surrogates are encoded one by
    one). *)
Definition utf8 (u : Z) : string :=
  if u <? 128 then String (chr u) EmptyString
  else if u <? 2048 then
    String (chr (192 + u / 64)) (String (chr (128 + u mod 64)) EmptyString)
  else
    String (chr (224 + u / 4096))
      (String (chr (128 + (u / 64) mod 64))
         (String (chr (128 + u mod 64)) EmptyString)).

(** The characters of a string literal after its opening quote. *)
Fixpoint parse_chars (s : string) : option (string * string) :=
  match s with
  | EmptyString => None
  | String c s' =>
      let n := code c in
      if n =? 34 then Some (EmptyString, s')
      else if n =? 92 then
        match s' with
        | EmptyString => None
        | String e s'' =>
            let k := code e in
            if k =? 117 then
              match s'' with
              | String h1 (String h2 (String h3 (String h4 s3))) =>
                  match hex_val h1, hex_val h2, hex_val h3, hex_val h4 with
                  | Some a, Some b, Some c', Some d =>
                      match parse_chars s3 with
                      | Some (r, rest) =>
                          Some (utf8 (4096 * a + 256 * b + 16 * c' + d) +:+ r, rest)
                      | None => None
                      end
                  | _, _, _, _ => None
                  end
              | _ => None
              end
            else
              let plain :=
                if (k =? 34) || (k =? 92) || (k =? 47) then Some e
                else if k =? 98 then Some (chr 8)
                else if k =? 102 then Some (chr 12)
                else if k =? 110 then Some (chr 10)
                else if k =? 114 then Some (chr 13)
                else if k =? 116 then Some (chr 9)
                else None in
              match plain, parse_chars s'' with
              | Some x, Some (r, rest) => Some (String x r, rest)
              | _, _ => None
              end
        end
      else if n <? 32 then None
      else
        match parse_chars s' with
        | Some (r, rest) => Some (String c r, rest)
        | None => None
        end
  end.

(** Defining an own property: a repeated key keeps its first position and
    takes the last value. *)
Fixpoint define (k : string) (v : json) (fields : list (string * json))
  : list (string * json) :=
  match fields with
  | [] => [(k, v)]
  | (k', v') :: fields' =>
      if String.eqb k k' then (k', v) :: fields'
      else (k', v') :: define k v fields'
  end.

Definition literal (word : string) (v : json) (s : string) : option (json * string) :=
  if String.prefix word s
  then Some (v, substring (String.length word) (String.length s) s)
  else None.

(** Recursive descent; [fuel] bounds the nesting of calls. *)
Fixpoint parse_value (fuel : nat) (s : string) : option (json * string) :=
  match fuel with
  | O => None
  | S fuel' =>
      let s0 := skip_ws s in
      match s0 with
      | EmptyString => None
      | String c rest =>
          let n := code c in
          if n =? 123 then
            let r1 := skip_ws rest in
            if starts 125 r1 then Some (JObj [], tail r1)
            else match parse_members fuel' [] r1 with
                 | Some (fs, r2) => Some (JObj fs, r2)
                 | None => None
                 end
          else if n =? 91 then
            let r1 := skip_ws rest in
            if starts 93 r1 then Some (JArr [], tail r1)
            else match parse_elements fuel' r1 with
                 | Some (xs, r2) => Some (JArr xs, r2)
                 | None => None
                 end
          else if n =? 34 then
            match parse_chars rest with
            | Some (str, r1) => Some (JStr str, r1)
            | None => None
            end
          else if (n =? 45) || is_digit c then parse_number s0
          else if n =? 116 then literal "true" (JBool true) s0
          else if n =? 102 then literal "false" (JBool false) s0
          else if n =? 110 then literal "null" JNull s0
          else None
      end
  end
with parse_elements (fuel : nat) (s : string) : option (list json * string) :=
  match fuel with
  | O => None
  | S fuel' =>
      match parse_value fuel' s with
      | None => None
      | Some (v, r1) =>
          let r2 := skip_ws r1 in
          if starts 44 r2 then
            match parse_elements fuel' (tail r2) with
            | Some (vs, r3) => Some (v :: vs, r3)
            | None => None
            end
          else if starts 93 r2 then Some ([v], tail r2)
          else None
      end
  end
with parse_members (fuel : nat) (acc : list (string * json)) (s : string)
  : option (list (string * json) * string) :=
  match fuel with
  | O => None
  | S fuel' =>
      let s0 := skip_ws s in
      if starts 34 s0 then
        match parse_chars (tail s0) with
        | None => None
        | Some (k, r1) =>
            let r2 := skip_ws r1 in
            if starts 58 r2 then
              match parse_value fuel' (tail r2) with
              | None => None
              | Some (v, r3) =>
                  let acc' := define k v acc in
                  let r4 := skip_ws r3 in
                  if starts 44 r4 then parse_members fuel' acc' (tail r4)
                  else if starts 125 r4 then Some (acc', tail r4)
                  else None
              end
            else None
        end
      else None
  end.

(** [JSON.parse(text)]; [None] stands for the [SyntaxError] it throws.
    Every call consumes a character before it recurses, so twice the
    length of the text bounds the nesting. *)
Definition parse (text : string) : option json :=
  match parse_value (2 * String.length text + 2) text with
  | Some (v, rest) =>
      match skip_ws rest with
      | EmptyString => Some v
      | String _ _ => None
      end
  | None => None
  end.

End JSON.

Import JSON.

(** ** The Redis server behind the client handle *)

Module Glob.

(** Glob-style patterns as the server matches them ([SCAN ... MATCH],
    [KEYS]): [*], [?], character classes and backslash escapes. *)

Inductive item : Type :=
| CChar (c : ascii)
| CRange (a b : ascii).

Inductive token : Type :=
| TStar
| TAny
| TClass (negated : bool) (items : list item)
| TLit (c : ascii).

Definition is_code (n : Z) (c : ascii) : bool := code c =? n.

Fixpoint tokens (p : list ascii) : list token :=
  match p with
  | [] => []
  | c :: p' =>
      if is_code 42 c then TStar :: tokens p'
      else if is_code 63 c then TAny :: tokens p'
      else if is_code 91 c then
        match p' with
        | d :: p'' => if is_code 94 d then in_class true [] p'' else in_class false [] p'
        | [] => in_class false [] p'
        end
      else if is_code 92 c then
        match p' with
        | d :: p'' => TLit d :: tokens p''
        | [] => [TLit c]
        end
      else TLit c :: tokens p'
  end
with in_class (negated : bool) (acc : list item) (p : list ascii) : list token :=
  match p with
  | [] => [TClass negated (rev acc)]
  | a :: p' =>
      match p' with
      | [] =>
          if is_code 93 a then TClass negated (rev acc) :: tokens p'
          else in_class negated (CChar a :: acc) p'
      | d :: p'' =>
          if is_code 92 a then in_class negated (CChar d :: acc) p''
          else if is_code 93 a then TClass negated (rev acc) :: tokens p'
          else
            match p'' with
            | b :: p3 =>
                if is_code 45 d then in_class negated (CRange a b :: acc) p3
                else in_class negated (CChar a :: acc) p'
            | [] => in_class negated (CChar a :: acc) p'
            end
      end
  end.

Definition item_matches (c : ascii) (i : item) : bool :=
  match i with
  | CChar a => code a =? code c
  | CRange a b =>
      (Z.min (code a) (code b) <=? code c) && (code c <=? Z.max (code a) (code b))
  end.

Fixpoint matches (ts : list token) : list ascii -> bool :=
  match ts with
  | [] => fun s => match s with [] => true | _ :: _ => false end
  | t :: ts' =>
      match t with
      | TStar =>
          fix star (s : list ascii) : bool :=
            matches ts' s || match s with [] => false | _ :: s' => star s' end
      | TAny => fun s => match s with [] => false | _ :: s' => matches ts' s' end
      | TClass negated items =>
          fun s =>
            match s with
            | [] => false
            | c :: s' =>
                xorb negated (existsb (item_matches c) items) && matches ts' s'
            end
      | TLit a =>
          fun s =>
            match s with
            | [] => false
            | c :: s' => (code a =? code c) && matches ts' s'
            end
      end
  end.

(** [stringmatchlen]: nothing is compared against an empty subject, which
    only the empty pattern matches. *)
Definition stringmatch (pattern subject : string) : bool :=
  match subject with
  | EmptyString =>
      match pattern with EmptyString => true | String _ _ => false end
  | String _ _ =>
      matches (tokens (list_ascii_of_string pattern)) (list_ascii_of_string subject)
  end.

(** The characters with a meaning of their own in a pattern. *)
Definition special (c : ascii) : bool := is_code 42 c || is_code 63 c || is_code 91 c || is_code 92 c.

Fixpoint plain (s : string) : bool :=
  match s with
  | EmptyString => true
  | String c s' => negb (special c) && plain s'
  end.

End Glob.

Module Redis.

Record Entry : Type := mkEntry {
  value : string;    (* the stored text *)
  expireAt : Z       (* server time (ms) after which the key is gone *)
}.

(** The server as the client shows it: its keyspace, its clock, and whether
    the client's calls are answered.  With [up = false] every call is
    rejected with an error.  A call that stays pending never completes and
    is not represented: the client the constructor builds retries a server
    it cannot reach for ever and queues commands meanwhile, so [up = false]
    stands for the calls that do settle, with an error, and not for the
    time a server is away. *)
Record Server : Type := mkServer {
  db : gmap string Entry;
  now : Z;
  up : bool
}.

(** A client call that settles returns or raises. *)
Inductive reply (A : Type) : Type :=
| Reply (a : A)
| Error (msg : string).
Arguments Reply {A} a.
Arguments Error {A} msg.

(** A key is visible until its expiry time has passed. *)
Definition live (r : Server) (k : string) : option string :=
  match db r !! k with
  | Some e => if now r <=? expireAt e then Some (value e) else None
  | None => None
  end.

Definition visible (r : Server) (k : string) : bool :=
  match live r k with Some _ => true | None => false end.

Definition connect (r : Server) : reply unit :=
  if up r then Reply tt else Error "connect rejected".

Definition GET (r : Server) (k : string) : reply (option string) :=
  if up r then Reply (live r k) else Error "command rejected".

(** [SETEX key seconds value]: the server rejects a non-positive expiry. *)
Definition SETEX (r : Server) (k : string) (seconds : Z) (v : string)
  : reply unit * Server :=
  if up r then
    if seconds <=? 0 then (Error "ERR invalid expire time in 'setex' command", r)
    else
      (Reply tt,
       mkServer (<[k := mkEntry v (now r + seconds * 1000)]> (db r)) (now r) (up r))
  else (Error "command rejected", r).

Definition DEL (r : Server) (k : string) : reply Z * Server :=
  if up r then
    (Reply (if visible r k then 1 else 0), mkServer (delete k (db r)) (now r) (up r))
  else (Error "command rejected", r).

Definition EXISTS (r : Server) (k : string) : reply Z :=
  if up r then Reply (if visible r k then 1 else 0) else Error "command rejected".

Definition MGET (r : Server) (ks : list string) : reply (list (option string)) :=
  if up r then
    match ks with
    | [] => Error "ERR wrong number of arguments for 'mget' command"
    | _ :: _ => Reply (List.map (live r) ks)
    end
  else Error "command rejected".

(** [MULTI ... EXEC] of queued [SETEX] commands: all of them run; the
    client raises when a reply is an error. *)
Fixpoint EXEC_all (r : Server) (queue : list (string * Z * string))
  : bool * Server :=
  match queue with
  | [] => (true, r)
  | (k, seconds, v) :: queue' =>
      let '(res, r1) := SETEX r k seconds v in
      let '(ok, r2) := EXEC_all r1 queue' in
      (match res with Reply _ => ok | Error _ => false end, r2)
    end.

Definition EXEC (r : Server) (queue : list (string * Z * string))
  : reply unit * Server :=
  if up r then
    let '(ok, r') := EXEC_all r queue in
    ((if ok then Reply tt else Error "MultiErrorReply"), r')
  else (Error "command rejected", r).

(** A full iteration of [scanIterator] with [MATCH pattern], for a client
    whose iterator yields one key per item (the iterable of strings the
    source casts it to; a client that yields one array per reply makes the
    loop count replies instead), over a keyspace nobody else is writing to
    and that is not being rehashed: the visible keys the pattern matches,
    once each. *)
Definition matching (r : Server) (pattern : string) : list string :=
  List.filter
    (fun k => visible r k && Glob.stringmatch pattern k)
    (List.map fst (map_to_list (db r))).

Definition SCAN (r : Server) (pattern : string) : reply (list string) :=
  if up r then Reply (matching r pattern) else Error "command rejected".

Definition QUIT (r : Server) : reply unit :=
  if up r then Reply tt else Error "command rejected".

(** [client.disconnect()] talks to the local socket only: it raises when
    that socket is not open. *)
Definition disconnect (socket_open : bool) : reply unit :=
  if socket_open then Reply tt else Error "The client is closed".

(** The environment: time passes; the client's calls start or stop being
    rejected. *)
Definition advance (d : Z) (r : Server) : Server :=
  mkServer (db r) (now r + d) (up r).

Definition reachable (b : bool) (r : Server) : Server :=
  mkServer (db r) (now r) b.

End Redis.

(** ** The networked backend: [src/cache/RedisCache.ts] *)

Module RedisCache.

Import Redis.

(** The options a caller may pass to the constructor; all are optional. *)
Record CacheConfig : Type := mkCacheConfig {
  opt_ttl : option Z;
  opt_maxSize : option Z;
  opt_enableStats : option bool;
  opt_url : option string;
  opt_keyPrefix : option string
}.

Record Config : Type := mkConfig {
  ttl : Z;
  maxSize : Z;
  enableStats : bool;
  url : string;
  keyPrefix : string
}.

Record CacheStats : Type := mkStats {
  hits : Z;
  misses : Z;
  sets : Z;
  deletes : Z;
  size : Z;
  hitRate : Q
}.

(** The fields of a [RedisCache] object.  [client] is the handle to the
    server, which is threaded next to the object; [connecting] is [null]
    whenever no call is in flight and is left out. *)
Record Cache : Type := mkCache {
  config : Config;
  stats : CacheStats;
  connected : bool
}.

(** [x || d] on an optional number and on an optional string. *)
Definition or_number (x : option Z) (d : Z) : Z :=
  match x with
  | Some n => if n =? 0 then d else n
  | None => d
  end.

Definition or_string (x : option string) (d : string) : string :=
  match x with
  | Some EmptyString | None => d
  | Some s => s
  end.

Definition constructor (cfg : CacheConfig) : Cache :=
  {| config :=
       {| ttl := or_number (opt_ttl cfg) 300000;
          maxSize := or_number (opt_maxSize cfg) 0;
          enableStats :=
            match opt_enableStats cfg with Some false => false | _ => true end;
          url := or_string (opt_url cfg) "redis://localhost:6379";
          keyPrefix := or_string (opt_keyPrefix cfg) "dvt:" |};
     stats := mkStats 0 0 0 0 0 0%Q;
     connected := false |}.

Definition no_options : CacheConfig := mkCacheConfig None None None None None.

(** *** Calls that may raise, over the object and the server *)

Definition World : Type := Cache * Server.

Inductive completion (A : Type) : Type :=
| Returns (a : A)
| Throws (error : string).
Arguments Returns {A} a.
Arguments Throws {A} error.

Definition M (A : Type) : Type := World -> completion A * World.

Definition ret {A} (a : A) : M A := fun w => (Returns a, w).

Definition throw {A} (error : string) : M A := fun w => (Throws error, w).

Definition bind {A B} (m : M A) (k : A -> M B) : M B :=
  fun w =>
    match m w with
    | (Returns a, w') => k a w'
    | (Throws e, w') => (Throws e, w')
    end.

Definition try_catch {A} (body : M A) (handler : string -> M A) : M A :=
  fun w =>
    match body w with
    | (Returns a, w') => (Returns a, w')
    | (Throws e, w') => handler e w'
    end.

Declare Scope cache_scope.
Delimit Scope cache_scope with cache.
Notation "'let*' x ':=' m 'in' k" := (bind m (fun x => k))
  (at level 10, x name, m at level 100, k at level 200) : cache_scope.
Notation "m '>>' k" := (bind m (fun _ => k))
  (at level 90, right associativity) : cache_scope.
Local Open Scope cache_scope.

Definition this : M Cache := fun w => (Returns (fst w), w).

Definition assign (f : Cache -> Cache) : M unit :=
  fun w => (Returns tt, (f (fst w), snd w)).

(** A client call that only reads, and one that may change the server. *)
Definition ask {A} (f : Server -> reply A) : M A :=
  fun w =>
    match f (snd w) with
    | Reply a => (Returns a, w)
    | Error e => (Throws e, w)
    end.

Definition tell {A} (f : Server -> reply A * Server) : M A :=
  fun w =>
    match f (snd w) with
    | (Reply a, r') => (Returns a, (fst w, r'))
    | (Error e, r') => (Throws e, (fst w, r'))
    end.

Definition when (b : bool) (m : M unit) : M unit := if b then m else ret tt.

Definition set_connected (b : bool) (c : Cache) : Cache :=
  mkCache (config c) (stats c) b.

Definition set_stats (f : CacheStats -> CacheStats) (c : Cache) : Cache :=
  mkCache (config c) (f (stats c)) (connected c).

(** *** The methods *)

Definition init : M unit :=
  let* c := this in
  if connected c then ret tt
  else
    try_catch
      (ask connect >> assign (set_connected true))
      (fun error => assign (set_connected false) >> throw error).

Definition ensureConnected : M unit :=
  let* c := this in
  if negb (connected c) then init else ret tt.

Definition getKey (c : Cache) (key : string) : string :=
  keyPrefix (config c) +:+ key.

Definition updateHitRate (s : CacheStats) : CacheStats :=
  let total := hits s + misses s in
  mkStats (hits s) (misses s) (sets s) (deletes s) (size s)
    (if 0 <? total then (inject_Z (hits s) / inject_Z total)%Q else 0%Q).

Definition count_hit (s : CacheStats) : CacheStats :=
  updateHitRate
    (mkStats (hits s + 1) (misses s) (sets s) (deletes s) (size s) (hitRate s)).

Definition count_miss (s : CacheStats) : CacheStats :=
  updateHitRate
    (mkStats (hits s) (misses s + 1) (sets s) (deletes s) (size s) (hitRate s)).

Definition count_sets (n : Z) (s : CacheStats) : CacheStats :=
  mkStats (hits s) (misses s) (sets s + n) (deletes s) (size s) (hitRate s).

Definition count_delete (s : CacheStats) : CacheStats :=
  mkStats (hits s) (misses s) (sets s) (deletes s + 1) (size s) (hitRate s).

Definition set_size (n : Z) (s : CacheStats) : CacheStats :=
  mkStats (hits s) (misses s) (sets s) (deletes s) n (hitRate s).

(** What [!value] lets through: a reply that is neither [null] nor the
    empty string. *)
Definition truthy (value : option string) : option string :=
  match value with
  | Some EmptyString | None => None
  | Some text => Some text
  end.

(** [try { return JSON.parse(value) } catch { return value }] *)
Definition decode (text : string) : json :=
  match JSON.parse text with
  | Some v => v
  | None => JStr text
  end.

(** [typeof value === 'string' ? value : JSON.stringify(value)] *)
Definition serialize (v : json) : string :=
  match v with
  | JStr s => s
  | _ => JSON.stringify v
  end.

Definition get (key : string) : M json :=
  try_catch
    (ensureConnected >>
     let* c := this in
     let fullKey := getKey c key in
     let* value := ask (fun r => GET r fullKey) in
     match truthy value with
     | None =>
         when (enableStats (config c)) (assign (set_stats count_miss)) >>
         ret JNull
     | Some text =>
         when (enableStats (config c)) (assign (set_stats count_hit)) >>
         ret (decode text)
     end)
    (fun _ =>
       let* c := this in
       when (enableStats (config c)) (assign (set_stats count_miss)) >>
       ret JNull).

Definition ttlSeconds (c : Cache) (ttl_arg : option Z) : Z :=
  or_number ttl_arg (ttl (config c)) / 1000.

Definition set (key : string) (v : json) (ttl_arg : option Z) : M unit :=
  try_catch
    (ensureConnected >>
     let* c := this in
     let fullKey := getKey c key in
     let serialized := serialize v in
     tell (fun r => SETEX r fullKey (ttlSeconds c ttl_arg) serialized) >>
     when (enableStats (config c)) (assign (set_stats (count_sets 1))))
    (fun _ => ret tt).

Definition delete (key : string) : M unit :=
  try_catch
    (ensureConnected >>
     let* c := this in
     let fullKey := getKey c key in
     tell (fun r => DEL r fullKey) >>
     when (enableStats (config c)) (assign (set_stats count_delete)))
    (fun _ => ret tt).

Definition clear : M unit :=
  let* c := this in
  when (enableStats (config c)) (assign (set_stats (set_size 0))).

Definition has (key : string) : M bool :=
  try_catch
    (ensureConnected >>
     let* c := this in
     let fullKey := getKey c key in
     let* exists_ := ask (fun r => EXISTS r fullKey) in
     ret (exists_ =? 1))
    (fun _ => ret false).

Definition mget (keys : list string) : M (list json) :=
  try_catch
    (ensureConnected >>
     let* c := this in
     let fullKeys := List.map (getKey c) keys in
     let* values := ask (fun r => MGET r fullKeys) in
     ret (List.map
            (fun value =>
               match truthy value with
               | None => JNull
               | Some text => decode text
               end)
            values))
    (fun _ => ret (List.map (fun _ => JNull) keys)).

(** The commands [mset] queues on its pipeline, one per entry. *)
Definition queued (c : Cache) (entries : list (string * json)) (ttl_arg : option Z)
  : list (string * Z * string) :=
  List.map
    (fun entry => (getKey c (fst entry), ttlSeconds c ttl_arg, serialize (snd entry)))
    entries.

Definition mset (entries : list (string * json)) (ttl_arg : option Z) : M unit :=
  try_catch
    (ensureConnected >>
     let* c := this in
     let pipeline := queued c entries ttl_arg in
     tell (fun r => EXEC r pipeline) >>
     when (enableStats (config c))
       (assign (set_stats (count_sets (Z.of_nat (length entries))))))
    (fun _ => ret tt).

Definition updateSize : M unit :=
  try_catch
    (ensureConnected >>
     let* c := this in
     let pattern := keyPrefix (config c) +:+ "*" in
     let* found := ask (fun r => SCAN r pattern) in
     assign (set_stats (set_size (Z.of_nat (length found)))))
    (fun _ => ret tt).

Definition getStats : M CacheStats :=
  try_catch
    (let* c := this in
     when (enableStats (config c)) updateSize)
    (fun _ => ret tt) >>
  let* c := this in
  ret (stats c).

(** The object after a call that got through to the server ([linked]),
    and after a counter was touched behind the [enableStats] check. *)
Definition linked (c : Cache) : Cache := set_connected true c.

Definition bump (f : CacheStats -> CacheStats) (c : Cache) : Cache :=
  if enableStats (config c) then set_stats f c else c.

Definition read (r : Server) (fullKey : string) : json :=
  match truthy (live r fullKey) with
  | Some text => decode text
  | None => JNull
  end.

(** [reconnectStrategy] of the client the constructor creates: the delay
    before reconnection attempt number [retries + 1]. *)
Definition reconnectStrategy (retries : Z) : Z :=
  Z.min (100 * 2 ^ retries) 3000.

(** [close]; [socket_open] tells whether the client's socket is open when
    the handler calls [disconnect]. *)
Definition close (socket_open : bool) : M unit :=
  try_catch
    (let* c := this in
     if connected c
     then ask QUIT >> assign (set_connected false)
     else ret tt)
    (fun _ =>
       ask (fun _ => disconnect socket_open) >>
       assign (set_connected false)).

(** *** Histories of calls *)

(** One call on the object, or one move of its environment. *)
Inductive call : Type :=
| Get (key : string)
| Set_ (key : string) (v : json) (ttl_arg : option Z)
| Delete (key : string)
| Has (key : string)
| Mget (keys : list string)
| Mset (entries : list (string * json)) (ttl_arg : option Z)
| Clear
| GetStats
| Advance (d : Z)
| Reachable (b : bool).

Definition step (x : call) (w : World) : World :=
  match x with
  | Get key => snd (get key w)
  | Set_ key v ttl_arg => snd (set key v ttl_arg w)
  | Delete key => snd (delete key w)
  | Has key => snd (has key w)
  | Mget keys => snd (mget keys w)
  | Mset entries ttl_arg => snd (mset entries ttl_arg w)
  | Clear => snd (clear w)
  | GetStats => snd (getStats w)
  | Advance d => (fst w, advance d (snd w))
  | Reachable b => (fst w, reachable b (snd w))
  end.

Fixpoint run (xs : list call) (w : World) : World :=
  match xs with
  | [] => w
  | x :: xs' => run xs' (step x w)
  end.

(** What an observer of the server sees, independently of the counters:
    a read finds its key when the server answers with a non-empty text;
    a write is stored when the server answers and accepts the expiry. *)
Definition finds (w : World) (key : string) : bool :=
  up (snd w) &&
  match truthy (live (snd w) (getKey (fst w) key)) with
  | Some _ => true
  | None => false
  end.

Definition stores (w : World) (ttl_arg : option Z) : bool :=
  up (snd w) && (1 <=? ttlSeconds (fst w) ttl_arg).

Record tally : Type := mkTally {
  found : Z;          (* get calls that found their key *)
  not_found : Z;      (* get calls that did not *)
  stored : Z;         (* set calls whose value was stored *)
  stored_batch : Z    (* entries of mset calls that were stored *)
}.

Fixpoint observe (xs : list call) (w : World) : tally :=
  match xs with
  | [] => mkTally 0 0 0 0
  | x :: xs' =>
      let t := observe xs' (step x w) in
      match x with
      | Get key =>
          if finds w key
          then mkTally (found t + 1) (not_found t) (stored t) (stored_batch t)
          else mkTally (found t) (not_found t + 1) (stored t) (stored_batch t)
      | Set_ _ _ ttl_arg =>
          if stores w ttl_arg
          then mkTally (found t) (not_found t) (stored t + 1) (stored_batch t)
          else t
      | Mset entries ttl_arg =>
          if stores w ttl_arg
          then mkTally (found t) (not_found t) (stored t)
                 (stored_batch t + Z.of_nat (length entries))
          else t
      | _ => t
      end
  end.

(** A cache built with the default options, and an empty server that
    answers, at time [0]. *)
Definition fresh : Cache := constructor no_options.

Definition idle : Server := mkServer ∅ 0 true.

(** The quotient [updateHitRate] computes from the two counters. *)
Definition rate (h m : Z) : Q :=
  if 0 <? h + m then (inject_Z h / inject_Z (h + m))%Q else 0%Q.

Definition balanced (s : CacheStats) : Prop := hitRate s = rate (hits s) (misses s).

(** The snapshot [getStats()] hands out. *)
Definition snapshot (w : World) : CacheStats :=
  match fst (getStats w) with
  | Returns s => s
  | Throws _ => stats (fst w)
  end.

(** Two deployments with bracketed and plain names. *)
Definition bracketed : Cache :=
  constructor (mkCacheConfig None None None None (Some "bot[1]:")).

Definition unbracketed : Cache :=
  constructor (mkCacheConfig None None None None (Some "bot1:")).

(** The calls made on the object, as opposed to moves of the environment. *)
Definition is_method (x : call) : bool :=
  match x with
  | Advance _ | Reachable _ => false
  | _ => true
  end.

(** One [set] per entry, in order, with the same TTL argument. *)
Fixpoint set_each (entries : list (string * json)) (ttl_arg : option Z) (w : World)
  : World :=
  match entries with
  | [] => w
  | entry :: entries' =>
      set_each entries' ttl_arg (snd (set (fst entry) (snd entry) ttl_arg w))
  end.

(** What [get] makes of a stored text. *)
Definition answer_of (text : string) : json :=
  match truthy (Some text) with
  | Some t => decode t
  | None => JNull
  end.

(** The calls that go to the server before anything else: every method but
    [clear], and [getStats] only when stats are enabled. *)
Definition contacts_server (c : Cache) (x : call) : bool :=
  match x with
  | Clear | Advance _ | Reachable _ => false
  | GetStats => enableStats (config c)
  | _ => true
  end.

(** [delete] calls that were answered, along a history. *)
Fixpoint deletions (xs : list call) (w : World) : Z :=
  match xs with
  | [] => 0
  | x :: xs' =>
      match x with
      | Delete _ => if up (snd w) then 1 else 0
      | _ => 0
      end + deletions xs' (step x w)
  end.

(** The [delete] calls of a history, and the histories along which the
    client's calls are never rejected. *)
Definition delete_calls (xs : list call) : Z :=
  Z.of_nat (length (List.filter (fun x => match x with Delete _ => true | _ => false end) xs)).

Definition never_rejected (xs : list call) : bool :=
  forallb (fun x => match x with Reachable false => false | _ => true end) xs.

Definition only_single_writes (xs : list call) : bool :=
  forallb (fun x => match x with Mset _ _ => false | _ => true end) xs.

End RedisCache.

(** ** The methods over any client *)

Module AnyClient.

Import Redis RedisCache.
Local Open Scope cache_scope.

(** The calls the methods make on [this.client].  Each one, when it
    settles, returns or raises; the ones that write also say how they leave
    the server. *)
Record Client : Type := mkClient {
  client_connect : Server -> reply unit;
  client_get : Server -> string -> reply (option string);
  client_setEx : Server -> string -> Z -> string -> reply unit * Server;
  client_del : Server -> string -> reply Z * Server;
  client_exists : Server -> string -> reply Z;
  client_mGet : Server -> list string -> reply (list (option string));
  client_exec : Server -> list (string * Z * string) -> reply unit * Server
}.

(** The client of module [Redis]. *)
Definition redis : Client :=
  mkClient Redis.connect GET SETEX DEL EXISTS MGET EXEC.

Section Methods.

Variable client : Client.

Definition init : M unit :=
  let* c := this in
  if connected c then ret tt
  else
    try_catch
      (ask (client_connect client) >> assign (set_connected true))
      (fun error => assign (set_connected false) >> throw error).

Definition ensureConnected : M unit :=
  let* c := this in
  if negb (connected c) then init else ret tt.

Definition get (key : string) : M json :=
  try_catch
    (ensureConnected >>
     let* c := this in
     let fullKey := getKey c key in
     let* value := ask (fun r => client_get client r fullKey) in
     match truthy value with
     | None =>
         when (enableStats (config c)) (assign (set_stats count_miss)) >>
         ret JNull
     | Some text =>
         when (enableStats (config c)) (assign (set_stats count_hit)) >>
         ret (decode text)
     end)
    (fun _ =>
       let* c := this in
       when (enableStats (config c)) (assign (set_stats count_miss)) >>
       ret JNull).

Definition set (key : string) (v : json) (ttl_arg : option Z) : M unit :=
  try_catch
    (ensureConnected >>
     let* c := this in
     let fullKey := getKey c key in
     let serialized := serialize v in
     tell (fun r => client_setEx client r fullKey (ttlSeconds c ttl_arg) serialized) >>
     when (enableStats (config c)) (assign (set_stats (count_sets 1))))
    (fun _ => ret tt).

Definition delete (key : string) : M unit :=
  try_catch
    (ensureConnected >>
     let* c := this in
     let fullKey := getKey c key in
     tell (fun r => client_del client r fullKey) >>
     when (enableStats (config c)) (assign (set_stats count_delete)))
    (fun _ => ret tt).

Definition has (key : string) : M bool :=
  try_catch
    (ensureConnected >>
     let* c := this in
     let fullKey := getKey c key in
     let* exists_ := ask (fun r => client_exists client r fullKey) in
     ret (exists_ =? 1))
    (fun _ => ret false).

Definition mget (keys : list string) : M (list json) :=
  try_catch
    (ensureConnected >>
     let* c := this in
     let fullKeys := List.map (getKey c) keys in
     let* values := ask (fun r => client_mGet client r fullKeys) in
     ret (List.map
            (fun value =>
               match truthy value with
               | None => JNull
               | Some text => decode text
               end)
            values))
    (fun _ => ret (List.map (fun _ => JNull) keys)).

Definition mset (entries : list (string * json)) (ttl_arg : option Z) : M unit :=
  try_catch
    (ensureConnected >>
     let* c := this in
     let pipeline := queued c entries ttl_arg in
     tell (fun r => client_exec client r pipeline) >>
     when (enableStats (config c))
       (assign (set_stats (count_sets (Z.of_nat (length entries))))))
    (fun _ => ret tt).

(** The method's first call, [connect], is made and raises. *)
Definition connect_rejected (w : World) : Prop :=
  connected (fst w) = false /\ exists error, client_connect client (snd w) = Error error.

(** The connection is there, or [connect] is made and returns. *)
Definition connection_ready (w : World) : Prop :=
  connected (fst w) = true \/ client_connect client (snd w) = Reply tt.

End Methods.

(** Two clients that raise.  The first has been opened by its owner
    through [getClient] and is not ready yet: [connect] raises.  The second
    loses its socket while a command waits for its reply: the command
    raises, here before the server has carried it out. *)
Definition already_open : Client :=
  mkClient (fun _ => Error "Socket already opened") GET SETEX DEL EXISTS MGET EXEC.

Definition dropped : Client :=
  let error := "Socket closed unexpectedly" in
  mkClient Redis.connect
    (fun _ _ => Error error)
    (fun r _ _ _ => (Error error, r))
    (fun r _ => (Error error, r))
    (fun _ _ => Error error)
    (fun _ _ => Error error)
    (fun r _ => (Error error, r)).

End AnyClient.

(** ** The in-process backend *)

Module MemoryCache.

(** Modelled from the spec: the in-process backend ([MemoryCache]), whose
    source is not among the files covered here.  Sections 3, 4.1 and 4.2 of the
    specification give its state and its [get] and [set]:
    - an entry is [{ key, serializedValue, createdAt, expiresAt }];
    - the entries are kept in recency order, least recently used first;
    - [get]: an absent key or one whose [expiresAt] has passed is a miss,
      and the stale entry is evicted; otherwise the key becomes the most
      recently used and its value is returned as a hit;
    - [set]: when inserting would exceed the configured maximum size and
      the key is new, the single least recently used entry is evicted
      before inserting; the entry expires at [now + (ttlOverride or
      defaultTtl)] and replaces any entry of the same key;
    - a maximum size of [0] means unbounded. *)

Record CacheEntry : Type := mkEntry {
  key : string;
  serializedValue : json;
  createdAt : Z;
  expiresAt : Z
}.

Record Cache : Type := mkCache {
  ttl : Z;
  maxSize : nat;
  entries : list CacheEntry;   (* least recently used first *)
  hits : Z;
  misses : Z;
  sets : Z
}.

Definition empty (ttl0 : Z) (maxSize0 : nat) : Cache :=
  mkCache ttl0 maxSize0 [] 0 0 0.

Definition keys (c : Cache) : list string := List.map key (entries c).

Definition lookup (k : string) (es : list CacheEntry) : option CacheEntry :=
  List.find (fun e => String.eqb (key e) k) es.

Definition remove (k : string) (es : list CacheEntry) : list CacheEntry :=
  List.filter (fun e => negb (String.eqb (key e) k)) es.

Definition get (now : Z) (k : string) (c : Cache) : option json * Cache :=
  match lookup k (entries c) with
  | None =>
      (None, mkCache (ttl c) (maxSize c) (entries c) (hits c) (misses c + 1) (sets c))
  | Some e =>
      if expiresAt e <? now then
        (None,
         mkCache (ttl c) (maxSize c) (remove k (entries c))
           (hits c) (misses c + 1) (sets c))
      else
        (Some (serializedValue e),
         mkCache (ttl c) (maxSize c) (remove k (entries c) ++ [e])
           (hits c + 1) (misses c) (sets c))
  end.

Definition is_new (k : string) (c : Cache) : bool :=
  match lookup k (entries c) with
  | Some _ => false
  | None => true
  end.

Definition would_exceed (c : Cache) : bool :=
  (0 <? maxSize c)%nat && (maxSize c <? length (entries c) + 1)%nat.

Definition evict_lru (es : list CacheEntry) : list CacheEntry := List.tl es.

Definition set (now : Z) (k : string) (v : json) (ttl_arg : option Z) (c : Cache)
  : Cache :=
  let kept :=
    if would_exceed c && is_new k c then evict_lru (entries c) else entries c in
  let e := mkEntry k v now (now + RedisCache.or_number ttl_arg (ttl c)) in
  mkCache (ttl c) (maxSize c) (remove k kept ++ [e])
    (hits c) (misses c) (sets c + 1).

Definition entry_of (now ttl0 : Z) (v : json) (k : string) : CacheEntry :=
  mkEntry k v now (now + ttl0).

Definition others (k : string) (ks : list string) : list string :=
  List.filter (fun x => negb (String.eqb x k)) ks.

(** Inserting a list of keys one after the other, all at time [now]. *)
Fixpoint set_all (now : Z) (ks : list string) (v : json) (c : Cache) : Cache :=
  match ks with
  | [] => c
  | k :: ks' => set_all now ks' v (set now k v None c)
  end.

End MemoryCache.

(** * The collaborators on sample inputs *)

Module Samples.

Import JSON.

Example parse_object :
  parse (stringify (JObj [("xp", JNum 10); ("tags", JArr [JStr "a\\b"; JNull; JBool true])]))
  = Some (JObj [("xp", JNum 10); ("tags", JArr [JStr "a\\b"; JNull; JBool true])]).
Proof. vm_compute. reflexivity. Qed.

Example parse_text_of_digits : parse "123" = Some (JNum 123).
Proof. vm_compute. reflexivity. Qed.

Example parse_plain_text : parse "hello" = None.
Proof. vm_compute. reflexivity. Qed.

Example glob_prefix : Glob.stringmatch "dvt:*" "dvt:user:42" = true.
Proof. reflexivity. Qed.

Example glob_prefix_only : Glob.stringmatch "dvt:*" "dvt:" = true.
Proof. reflexivity. Qed.

Example glob_other_prefix : Glob.stringmatch "dvt:*" "voice:user:42" = false.
Proof. reflexivity. Qed.

Example glob_class : Glob.stringmatch "h[^a-c]ll[ox]*" "hello" = true.
Proof. reflexivity. Qed.

End Samples.

(** * Properties of the networked backend *)

Module Networked.

Import Redis RedisCache.
Local Open Scope cache_scope.

Arguments live : simpl never.
Arguments decode : simpl never.
Arguments truthy : simpl never.
Arguments serialize : simpl never.
Arguments Z.div : simpl never.
Arguments Z.mul : simpl never.
Arguments Z.add : simpl never.
Arguments Z.leb : simpl never.

Ltac methods :=
  unfold get, RedisCache.set, RedisCache.delete, has, mget, mset, clear, getStats,
    updateSize, ensureConnected, init, try_catch, bind, ret, throw, this, ask, tell,
    assign, when, bump, linked, read, getKey, ttlSeconds, set_connected, set_stats in *.

Ltac open_world c r :=
  let cfg := fresh "cfg" in
  let st := fresh "st" in
  let conn := fresh "conn" in
  let d := fresh "d" in
  let n := fresh "n" in
  let u := fresh "u" in
  destruct c as [cfg st conn], r as [d n u]; cbn [up db now config stats connected] in *;
  subst; destruct conn.

Ltac crunch :=
  methods; cbn in *;
  repeat (case_match; methods; cbn in *; simplify_eq);
  try reflexivity.

(** ** What each method does, by whether the server answers *)

Lemma get_up c r key :
  up r = true ->
  get key (c, r) =
    match truthy (live r (getKey c key)) with
    | Some text => (Returns (decode text), (bump count_hit (linked c), r))
    | None => (Returns JNull, (bump count_miss (linked c), r))
    end.
Proof. intros Hup. open_world c r; crunch. Qed.

Lemma get_down c r key :
  up r = false -> get key (c, r) = (Returns JNull, (bump count_miss c, r)).
Proof. intros Hup. open_world c r; crunch. Qed.

Lemma set_up c r key v ttl_arg :
  up r = true ->
  RedisCache.set key v ttl_arg (c, r) =
    if ttlSeconds c ttl_arg <=? 0 then (Returns tt, (linked c, r))
    else
      (Returns tt,
       (bump (count_sets 1) (linked c),
        mkServer
          (<[getKey c key := mkEntry (serialize v) (now r + ttlSeconds c ttl_arg * 1000)]>
             (db r))
          (now r) (up r))).
Proof. intros Hup. open_world c r; crunch. Qed.

Lemma set_down c r key v ttl_arg :
  up r = false -> RedisCache.set key v ttl_arg (c, r) = (Returns tt, (c, r)).
Proof. intros Hup. open_world c r; crunch. Qed.

Lemma delete_up c r key :
  up r = true ->
  RedisCache.delete key (c, r) =
    (Returns tt,
     (bump count_delete (linked c),
      mkServer (base.delete (getKey c key) (db r)) (now r) (up r))).
Proof. intros Hup. open_world c r; crunch. Qed.

Lemma delete_down c r key :
  up r = false -> RedisCache.delete key (c, r) = (Returns tt, (c, r)).
Proof. intros Hup. open_world c r; crunch. Qed.

Lemma has_up c r key :
  up r = true ->
  has key (c, r) = (Returns (visible r (getKey c key)), (linked c, r)).
Proof. intros Hup. open_world c r; crunch. Qed.

Lemma has_down c r key :
  up r = false -> has key (c, r) = (Returns false, (c, r)).
Proof. intros Hup. open_world c r; crunch. Qed.

Lemma mget_up c r keys :
  up r = true ->
  mget keys (c, r) =
    (Returns (List.map (fun key => read r (getKey c key)) keys), (linked c, r)).
Proof.
  intros Hup. open_world c r; methods; cbn; destruct keys; cbn;
    rewrite ?List.map_map; reflexivity.
Qed.

Lemma mget_down c r keys :
  up r = false ->
  mget keys (c, r) = (Returns (List.map (fun _ => JNull) keys), (c, r)).
Proof. intros Hup. open_world c r; crunch. Qed.

Lemma clear_always c r : clear (c, r) = (Returns tt, (bump (set_size 0) c, r)).
Proof. destruct c as [cfg st conn]; crunch. Qed.

Lemma mset_up c r entries ttl_arg :
  up r = true ->
  mset entries ttl_arg (c, r) =
    (Returns tt,
     (if fst (EXEC_all r (queued c entries ttl_arg))
      then bump (count_sets (Z.of_nat (length entries))) (linked c)
      else linked c,
      snd (EXEC_all r (queued c entries ttl_arg)))).
Proof.
  intros Hup. open_world c r; methods; unfold queued; methods; cbn;
    match goal with
    | |- context [EXEC_all ?a ?b] => destruct (EXEC_all a b) as [ok r2]; destruct ok
    end;
    cbn; destruct (enableStats cfg); reflexivity.
Qed.

Lemma mset_down c r entries ttl_arg :
  up r = false -> mset entries ttl_arg (c, r) = (Returns tt, (c, r)).
Proof. intros Hup. open_world c r; crunch. Qed.

Lemma getStats_up c r :
  up r = true ->
  getStats (c, r) =
    let c' :=
      if enableStats (config c)
      then set_stats
             (set_size (Z.of_nat (length (matching r (keyPrefix (config c) +:+ "*")))))
             (linked c)
      else c in
    (Returns (stats c'), (c', r)).
Proof. intros Hup. open_world c r; crunch. Qed.

Lemma getStats_down c r :
  up r = false -> getStats (c, r) = (Returns (stats c), (c, r)).
Proof. intros Hup. open_world c r; crunch. Qed.

(** The pipeline of [mset] on a server that answers: every command is
    accepted or every command is rejected. *)
Lemma EXEC_all_queued c r entries ttl_arg :
  up r = true ->
  let out := EXEC_all r (queued c entries ttl_arg) in
  up (snd out) = true /\ now (snd out) = now r /\
  fst out = ((1 <=? ttlSeconds c ttl_arg) || match entries with [] => true | _ => false end) /\
  (ttlSeconds c ttl_arg <= 0 -> snd out = r).
Proof.
  revert r. induction entries as [|[k v] entries IH]; intros r Hup.
  - cbn. rewrite orb_true_r. auto.
  - change (queued c ((k, v) :: entries) ttl_arg)
      with ((getKey c k, ttlSeconds c ttl_arg, serialize v) :: queued c entries ttl_arg).
    cbn [EXEC_all]. unfold SETEX. rewrite Hup, orb_false_r.
    destruct (Z.leb_spec (ttlSeconds c ttl_arg) 0) as [Hle|Hgt].
    + destruct (IH r Hup) as (H1 & H2 & H3 & H4).
      destruct (EXEC_all r (queued c entries ttl_arg)) as [ok r2]. cbn in *.
      repeat split; auto. symmetry. apply Z.leb_gt. lia.
    + match goal with |- context [EXEC_all ?r1 _] => set (r1' := r1) end.
      destruct (IH r1' eq_refl) as (H1 & H2 & H3 & H4).
      destruct (EXEC_all r1' (queued c entries ttl_arg)) as [ok r2]. cbn in *.
      repeat split; auto.
      * rewrite H3. replace (1 <=? ttlSeconds c ttl_arg) with true; [reflexivity|].
        symmetry. apply Z.leb_le. lia.
      * lia.
Qed.

(** ** Errors of the store stay inside the backend *)

Ltac client_methods :=
  unfold AnyClient.get, AnyClient.set, AnyClient.delete, AnyClient.has, AnyClient.mget,
    AnyClient.mset, AnyClient.ensureConnected, AnyClient.init, AnyClient.connect_rejected,
    AnyClient.connection_ready, try_catch, bind, ret, throw, this, ask, tell, assign,
    when, bump, linked, queued, getKey, ttlSeconds, set_connected, set_stats in *.

Ltac client_crunch :=
  client_methods; cbn in *;
  repeat (case_match; client_methods; cbn in *; simplify_eq);
  eauto.

(** The methods of [RedisCache] are the methods over the client of module
    [Redis]. *)
Lemma methods_over_the_redis_client :
  AnyClient.init AnyClient.redis = init /\
  AnyClient.ensureConnected AnyClient.redis = ensureConnected /\
  AnyClient.get AnyClient.redis = get /\
  AnyClient.set AnyClient.redis = RedisCache.set /\
  AnyClient.delete AnyClient.redis = RedisCache.delete /\
  AnyClient.has AnyClient.redis = has /\
  AnyClient.mget AnyClient.redis = mget /\
  AnyClient.mset AnyClient.redis = mset.
Proof. repeat split. Qed.

(** C2: an error raised by a call on the client is caught inside the
    backend and never reaches the caller.  For every client, and whatever
    the state of the object and of the server, [get], [set], [delete],
    [has], [mget] and [mset] return.  When [connect] raises, [get] answers
    absent (and counts a miss when stats are on), [mget] answers absent for
    every requested key, [has] answers [false], and [set], [delete] and
    [mset] leave the object and the server as they were.  When the
    connection is there and the command raises, the answers are the same,
    no write is counted in the statistics, and the server is as the call
    that raised left it.  A call that neither returns nor raises has no
    completion and is not covered. *)
Theorem client_errors_are_caught (client : AnyClient.Client) (c : Cache) (r : Server) :
  ((forall key, exists v w', AnyClient.get client key (c, r) = (Returns v, w')) /\
   (forall key v ttl_arg, exists w',
      AnyClient.set client key v ttl_arg (c, r) = (Returns tt, w')) /\
   (forall key, exists w', AnyClient.delete client key (c, r) = (Returns tt, w')) /\
   (forall key, exists b w', AnyClient.has client key (c, r) = (Returns b, w')) /\
   (forall keys, exists vs w', AnyClient.mget client keys (c, r) = (Returns vs, w')) /\
   (forall entries ttl_arg, exists w',
      AnyClient.mset client entries ttl_arg (c, r) = (Returns tt, w'))) /\
  (AnyClient.connect_rejected client (c, r) ->
   (forall key, AnyClient.get client key (c, r) = (Returns JNull, (bump count_miss c, r))) /\
   (forall keys,
      AnyClient.mget client keys (c, r) = (Returns (List.map (fun _ => JNull) keys), (c, r))) /\
   (forall key, AnyClient.has client key (c, r) = (Returns false, (c, r))) /\
   (forall key v ttl_arg, AnyClient.set client key v ttl_arg (c, r) = (Returns tt, (c, r))) /\
   (forall key, AnyClient.delete client key (c, r) = (Returns tt, (c, r))) /\
   (forall entries ttl_arg,
      AnyClient.mset client entries ttl_arg (c, r) = (Returns tt, (c, r)))) /\
  (AnyClient.connection_ready client (c, r) ->
   (forall key error,
      AnyClient.client_get client r (getKey c key) = Error error ->
      AnyClient.get client key (c, r) = (Returns JNull, (bump count_miss (linked c), r))) /\
   (forall keys error,
      AnyClient.client_mGet client r (List.map (getKey c) keys) = Error error ->
      AnyClient.mget client keys (c, r) =
        (Returns (List.map (fun _ => JNull) keys), (linked c, r))) /\
   (forall key error,
      AnyClient.client_exists client r (getKey c key) = Error error ->
      AnyClient.has client key (c, r) = (Returns false, (linked c, r))) /\
   (forall key v ttl_arg error r',
      AnyClient.client_setEx client r (getKey c key) (ttlSeconds c ttl_arg) (serialize v) =
        (Error error, r') ->
      AnyClient.set client key v ttl_arg (c, r) = (Returns tt, (linked c, r'))) /\
   (forall key error r',
      AnyClient.client_del client r (getKey c key) = (Error error, r') ->
      AnyClient.delete client key (c, r) = (Returns tt, (linked c, r'))) /\
   (forall entries ttl_arg error r',
      AnyClient.client_exec client r (queued c entries ttl_arg) = (Error error, r') ->
      AnyClient.mset client entries ttl_arg (c, r) = (Returns tt, (linked c, r')))).
Proof.
  destruct c as [cfg st conn]. split; [|split].
  - repeat split; intros; destruct conn; client_crunch.
  - intros [Hconn [error Herror]]. cbn in Hconn, Herror. subst conn.
    repeat split; intros; client_methods; cbn; rewrite Herror; cbn;
      destruct (enableStats cfg); reflexivity.
  - intros Hready.
    assert (Hopen : conn = true \/ conn = false /\
                    AnyClient.client_connect client r = Reply tt).
    { destruct conn; [left; reflexivity|]. right. split; [reflexivity|].
      destruct Hready as [H|H]; [discriminate H | exact H]. }
    clear Hready.
    repeat split; intros; destruct Hopen as [->|[-> Hconnect]];
      client_methods; cbn in *; rewrite ?Hconnect; cbn;
      match goal with H : _ = _ |- _ => rewrite H end; cbn;
      destruct (enableStats cfg); reflexivity.
Qed.

Lemma client_errors_are_caught_witness :
  AnyClient.connect_rejected AnyClient.already_open (fresh, idle) /\
  AnyClient.get AnyClient.already_open "user:42" (fresh, idle) =
    (Returns JNull, (bump count_miss fresh, idle)) /\
  AnyClient.connection_ready AnyClient.dropped (fresh, idle) /\
  AnyClient.get AnyClient.dropped "user:42" (fresh, idle) =
    (Returns JNull, (bump count_miss (linked fresh), idle)) /\
  AnyClient.set AnyClient.dropped "user:42" (JNum 7) None (fresh, idle) =
    (Returns tt, (linked fresh, idle)) /\
  AnyClient.connect_rejected AnyClient.redis (fresh, reachable false idle) /\
  get "user:42" (fresh, reachable false idle) =
    (Returns JNull, (bump count_miss fresh, reachable false idle)).
Proof.
  assert (H1 : AnyClient.connect_rejected AnyClient.already_open (fresh, idle))
    by (split; [reflexivity | eexists; reflexivity]).
  assert (H2 : AnyClient.connection_ready AnyClient.dropped (fresh, idle))
    by (right; reflexivity).
  assert (H3 : AnyClient.connect_rejected AnyClient.redis (fresh, reachable false idle))
    by (split; [reflexivity | eexists; reflexivity]).
  split; [exact H1|]. split.
  { exact (proj1 (proj1 (proj2 (client_errors_are_caught AnyClient.already_open fresh idle))
                    H1) "user:42"). }
  split; [exact H2|]. split.
  { exact (proj1 (proj2 (proj2 (client_errors_are_caught AnyClient.dropped fresh idle)) H2)
             "user:42" _ eq_refl). }
  split.
  { exact (proj1 (proj2 (proj2 (proj2 (proj2 (proj2
             (client_errors_are_caught AnyClient.dropped fresh idle)) H2))))
             "user:42" (JNum 7) None _ _ eq_refl). }
  split; [exact H3|].
  exact (proj1 (proj1 (proj2 (client_errors_are_caught AnyClient.redis fresh
                                  (reachable false idle))) H3) "user:42").
Defined.

(** ** [clear] *)

(** C3: [clear()] returns without touching the server; afterwards, and
    after any further lapse of time, [get] answers every key exactly as it
    would have without the call; in particular a key whose stored text is
    still visible is still answered with its stored value. *)
Theorem clear_deletes_nothing (c : Cache) (r : Server) :
  exists c',
    clear (c, r) = (Returns tt, (c', r)) /\
    (forall key d,
       fst (get key (c', advance d r)) = fst (get key (c, advance d r))) /\
    (forall key text,
       up r = true -> live r (getKey c key) = Some text -> text <> EmptyString ->
       fst (get key (c', r)) = Returns (decode text)).
Proof.
  exists (bump (set_size 0) c). split; [apply clear_always|].
  assert (Hkey : forall key, getKey (bump (set_size 0) c) key = getKey c key).
  { intros key. unfold bump, getKey. destruct (enableStats (config c)); reflexivity. }
  split.
  - intros key d. destruct (up (advance d r)) eqn:Hup.
    + rewrite !get_up, Hkey by done. case_match; reflexivity.
    + rewrite !get_down by done. reflexivity.
  - intros key text Hup Hlive Htext.
    rewrite get_up, Hkey, Hlive by done.
    destruct text; [done | reflexivity].
Qed.

Lemma clear_deletes_nothing_witness :
  let w := snd (RedisCache.set "user:42" (JObj [("xp", JNum 10)]) (Some 1000) (fresh, idle)) in
  exists c',
    clear w = (Returns tt, (c', snd w)) /\
    fst (get "user:42" (c', snd w)) = Returns (JObj [("xp", JNum 10)]).
Proof.
  intros w.
  destruct (clear_deletes_nothing (fst w) (snd w)) as (c' & Hclear & _ & Hget).
  exists c'. split; [exact Hclear|].
  apply (Hget "user:42" (JSON.stringify (JObj [("xp", JNum 10)])));
    [reflexivity | vm_compute; reflexivity | discriminate].
Defined.

(** ** Hits and misses of [get] *)

(** C5: with stats enabled, a call to [get] returns and moves exactly one
    of the two counters by one: [hits] when the server answers with a
    visible, non-empty stored text, whose decoded value is returned, and
    [misses] when the key is absent or expired or when the call to the
    server raises, in which cases absent is returned. *)
Theorem get_counts_one_hit_or_one_miss (c : Cache) (r : Server) (key : string) :
  enableStats (config c) = true ->
  exists v c',
    get key (c, r) = (Returns v, (c', r)) /\
    ((hits (stats c') = hits (stats c) + 1 /\ misses (stats c') = misses (stats c)) \/
     (hits (stats c') = hits (stats c) /\ misses (stats c') = misses (stats c) + 1)) /\
    (forall text,
       up r = true -> live r (getKey c key) = Some text -> text <> EmptyString ->
       v = decode text /\
       hits (stats c') = hits (stats c) + 1 /\ misses (stats c') = misses (stats c)) /\
    (up r = false \/ live r (getKey c key) = None ->
     v = JNull /\
     hits (stats c') = hits (stats c) /\ misses (stats c') = misses (stats c) + 1) /\
    (v <> JNull -> hits (stats c') = hits (stats c) + 1).
Proof.
  intros Hstats. destruct (up r) eqn:Hup.
  - rewrite get_up by done. unfold bump, linked. cbn. rewrite Hstats.
    destruct (live r (getKey c key)) as [[|a text]|] eqn:Hlive;
      do 2 eexists; (split; [reflexivity|]); cbn; naive_solver.
  - rewrite get_down by done. unfold bump. rewrite Hstats.
    do 2 eexists. split; [reflexivity|]. cbn. naive_solver.
Qed.

Lemma get_counts_one_hit_or_one_miss_witness :
  exists v c',
    get "user:42" (fresh, idle) = (Returns v, (c', idle)) /\
    v = JNull /\ hits (stats c') = 0 /\ misses (stats c') = 1.
Proof.
  destruct (get_counts_one_hit_or_one_miss fresh idle "user:42" eq_refl)
    as (v & c' & Hget & _ & _ & Hmiss & _).
  exists v, c'. split; [exact Hget|]. apply Hmiss. right. reflexivity.
Defined.

(** ** The empty text *)

(** C10: when the server holds the empty string under an unexpired key of
    the backend, [get] answers absent and, with stats enabled, counts a
    miss, while [has] answers [true] for the same key, before and after
    that [get]. *)
Theorem empty_text_reads_as_absent (c : Cache) (r : Server) (key : string) (e : Entry) :
  up r = true ->
  db r !! getKey c key = Some e ->
  value e = EmptyString ->
  now r <= expireAt e ->
  exists c',
    get key (c, r) = (Returns JNull, (c', r)) /\
    (enableStats (config c) = true ->
     misses (stats c') = misses (stats c) + 1 /\ hits (stats c') = hits (stats c)) /\
    fst (has key (c, r)) = Returns true /\
    fst (has key (c', r)) = Returns true.
Proof.
  intros Hup Hdb Hval Hnow.
  assert (Hlive : live r (getKey c key) = Some EmptyString).
  { unfold live. rewrite Hdb, <- Hval.
    destruct (Z.leb_spec (now r) (expireAt e)); [reflexivity | lia]. }
  rewrite get_up, Hlive by done. cbn.
  eexists. split; [reflexivity|].
  split; [intros Hs; unfold bump, linked; cbn; rewrite Hs; cbn; auto|].
  rewrite !has_up by done.
  assert (Hk : getKey (bump count_miss (linked c)) key = getKey c key).
  { unfold bump, getKey. destruct (enableStats (config (linked c))); reflexivity. }
  unfold visible. rewrite Hk, Hlive. auto.
Qed.

Lemma empty_text_reads_as_absent_witness :
  let w := snd (RedisCache.set "note" (JStr EmptyString) None (fresh, idle)) in
  exists c',
    get "note" w = (Returns JNull, (c', snd w)) /\
    misses (stats c') = misses (stats (fst w)) + 1 /\
    fst (has "note" w) = Returns true.
Proof.
  intros w.
  destruct (empty_text_reads_as_absent (fst w) (snd w) "note"
              (mkEntry EmptyString 300000))
    as (c' & Hget & Hmiss & Hhas & _);
    [reflexivity | vm_compute; reflexivity | reflexivity | vm_compute; discriminate |].
  exists c'. split; [exact Hget|]. split; [apply Hmiss; reflexivity | exact Hhas].
Defined.

(** ** Reading back what was written *)

(** What [get] answers, whatever it does to the counters. *)
Lemma get_answer c r key :
  fst (get key (c, r)) =
    Returns (if up r then read r (getKey c key) else JNull).
Proof.
  destruct (up r) eqn:Hup.
  - rewrite get_up by done. unfold read. case_match; reflexivity.
  - rewrite get_down by done. reflexivity.
Qed.

Lemma live_after_SETEX (r : Server) fullKey text seconds d :
  0 <= d ->
  live (advance d (mkServer (<[fullKey := mkEntry text (now r + seconds * 1000)]> (db r))
                     (now r) (up r))) fullKey =
    if d <=? seconds * 1000 then Some text else None.
Proof.
  intros Hd. unfold live, advance. cbn. rewrite lookup_insert_eq. cbn.
  destruct (Z.leb_spec (now r + d) (now r + seconds * 1000)),
           (Z.leb_spec d (seconds * 1000)); try reflexivity; lia.
Qed.

(** A value that was stored is answered by its stored text, decoded. *)
Lemma get_after_set c r key v ttl_arg d :
  up r = true -> 1 <= ttlSeconds c ttl_arg -> 0 <= d ->
  let w := snd (RedisCache.set key v ttl_arg (c, r)) in
  fst (get key (fst w, advance d (snd w))) =
    Returns (if d <=? ttlSeconds c ttl_arg * 1000
             then match truthy (Some (serialize v)) with
                  | Some text => decode text
                  | None => JNull
                  end
             else JNull).
Proof.
  intros Hup Httl Hd. cbn zeta. rewrite set_up by done.
  destruct (Z.leb_spec (ttlSeconds c ttl_arg) 0) as [|_]; [lia|].
  cbn [fst snd]. rewrite get_answer.
  replace (up (advance d _)) with true by (cbn; congruence).
  assert (Hk : forall f, getKey (bump f (linked c)) key = getKey c key).
  { intros f. unfold bump, getKey. destruct (enableStats (config (linked c))); reflexivity. }
  unfold read. rewrite Hk, live_after_SETEX by done.
  destruct (d <=? ttlSeconds c ttl_arg * 1000); reflexivity.
Qed.

(** X21: a value whose stored text is not empty and decodes to itself is
    read back as it was written, until its TTL (in whole seconds, at least
    one) has elapsed. *)
Lemma get_returns_what_decodes c r key v ttl_arg d :
  up r = true -> 1 <= ttlSeconds c ttl_arg -> 0 <= d -> d <= ttlSeconds c ttl_arg * 1000 ->
  serialize v <> EmptyString -> decode (serialize v) = v ->
  let w := snd (RedisCache.set key v ttl_arg (c, r)) in
  fst (get key (fst w, advance d (snd w))) = Returns v.
Proof.
  intros Hup Httl Hd Hle Htext Hdec. cbn zeta. rewrite get_after_set by done.
  destruct (Z.leb_spec d (ttlSeconds c ttl_arg * 1000)); [|lia].
  f_equal. rewrite <- Hdec at 2. destruct (serialize v); [done | reflexivity].
Qed.

(** C1, as the code has it: a text that is itself JSON is stored as it is
    and decoded on the way back.  After [set("k", "123")] has stored its
    value, [get("k")] answers the number [123], not the string. *)
Theorem text_of_digits_is_read_back_as_a_number :
  let written := JStr "123" in
  let w := snd (RedisCache.set "k" written None (fresh, idle)) in
  fst (RedisCache.set "k" written None (fresh, idle)) = Returns tt /\
  live (snd w) "dvt:k" = Some "123" /\
  fst (get "k" w) = Returns (JNum 123) /\
  JNum 123 <> written.
Proof. vm_compute. repeat split; discriminate. Qed.

(** ** Expiry *)

(** C4, as the claim states it, fails: a value written with a TTL override
    of 1500 ms is already absent 1200 ms later. *)
Lemma ttl_override_is_not_kept_to_the_millisecond :
  let w := snd (RedisCache.set "user:42" (JObj [("xp", JNum 10)]) (Some 1500) (fresh, idle)) in
  1200 < 1500 /\
  fst (get "user:42" (fst w, advance 1200 (snd w))) = Returns JNull.
Proof. vm_compute. split; reflexivity. Qed.

(** C4, amended: the TTL is counted in whole seconds.  Let [s] be
    [(ttlOverride or defaultTtl)] divided by 1000 and rounded down, where a
    missing or zero override stands for the default.  When the server
    answers and [s] is at least 1, [set] stores the serialized value with
    expiry [now + s] seconds; a [get] strictly less than [s] seconds later
    answers the decoded stored text if that text is not empty, and a [get]
    strictly more than [s] seconds later answers absent. *)
Theorem ttl_expiry_in_whole_seconds
    (c : Cache) (r : Server) (key : string) (v : json) (ttl_arg : option Z) (d : Z) :
  up r = true ->
  1 <= ttlSeconds c ttl_arg ->
  0 <= d ->
  let s := ttlSeconds c ttl_arg in
  let w := snd (RedisCache.set key v ttl_arg (c, r)) in
  s = match ttl_arg with
      | Some t => if t =? 0 then ttl (config c) else t
      | None => ttl (config c)
      end / 1000 /\
  db (snd w) !! getKey c key = Some (mkEntry (serialize v) (now r + s * 1000)) /\
  (d < s * 1000 -> serialize v <> EmptyString ->
   fst (get key (fst w, advance d (snd w))) = Returns (decode (serialize v))) /\
  (s * 1000 < d ->
   fst (get key (fst w, advance d (snd w))) = Returns JNull).
Proof.
  intros Hup Httl Hd s w. split; [reflexivity|]. split.
  - subst w. rewrite set_up by done.
    destruct (Z.leb_spec (ttlSeconds c ttl_arg) 0) as [|_]; [lia|].
    cbn. apply lookup_insert_eq.
  - subst w s. rewrite get_after_set by done. split.
    + intros Hlt Htext.
      destruct (Z.leb_spec d (ttlSeconds c ttl_arg * 1000)); [|lia].
      destruct (serialize v); [done | reflexivity].
    + intros Hgt.
      destruct (Z.leb_spec d (ttlSeconds c ttl_arg * 1000)); [lia | reflexivity].
Qed.

Lemma ttl_expiry_in_whole_seconds_witness :
  let w := snd (RedisCache.set "user:42" (JObj [("xp", JNum 10)]) (Some 1500) (fresh, idle)) in
  fst (get "user:42" (fst w, advance 999 (snd w))) = Returns (JObj [("xp", JNum 10)]) /\
  fst (get "user:42" (fst w, advance 1001 (snd w))) = Returns JNull.
Proof.
  intros w. split.
  - apply (proj1 (proj2 (proj2
             (ttl_expiry_in_whole_seconds fresh idle "user:42" (JObj [("xp", JNum 10)])
                (Some 1500) 999 eq_refl ltac:(vm_compute; discriminate)
                ltac:(vm_compute; discriminate)))));
      [reflexivity | discriminate].
  - apply (proj2 (proj2 (proj2
             (ttl_expiry_in_whole_seconds fresh idle "user:42" (JObj [("xp", JNum 10)])
                (Some 1500) 1001 eq_refl ltac:(vm_compute; discriminate)
                ltac:(vm_compute; discriminate)))));
      reflexivity.
Defined.

(** ** Batch reads *)

(** X11: [mget(keys)] never throws, leaves the server and the counters as
    they were, and answers a list with one element per requested key, in
    order, each being exactly what [get] of that key would answer in the
    same state (for the empty list, the empty list). *)
Lemma mget_answers_like_get (c : Cache) (r : Server) (keys : list string) :
  exists vs c',
    mget keys (c, r) = (Returns vs, (c', r)) /\
    Forall2 (fun key v => fst (get key (c, r)) = Returns v) keys vs /\
    stats c' = stats c.
Proof.
  destruct (up r) eqn:Hup.
  - rewrite mget_up by done. do 2 eexists. split; [reflexivity|]. split; [|reflexivity].
    induction keys as [|key keys IH]; constructor; [|exact IH].
    rewrite get_answer, Hup. reflexivity.
  - rewrite mget_down by done. do 2 eexists. split; [reflexivity|]. split; [|reflexivity].
    induction keys as [|key keys IH]; constructor; [|exact IH].
    rewrite get_answer, Hup. reflexivity.
Qed.

(** C6, as the code has it: with stats enabled and one visible key ["a"],
    [mget(["a"])] answers as [get("a")] does but leaves [hits] and
    [misses] at zero, where [get("a")] records one hit; and
    [mget(["b"])] on an absent key records no miss, where [get("b")]
    records one. *)
Theorem mget_records_no_hit_and_no_miss :
  let w := snd (RedisCache.set "a" (JNum 1) None (fresh, idle)) in
  enableStats (config (fst w)) = true /\
  fst (mget ["a"] w) = Returns [JNum 1] /\
  fst (get "a" w) = Returns (JNum 1) /\
  hits (stats (fst (snd (mget ["a"] w)))) = 0 /\
  hits (stats (fst (snd (get "a" w)))) = 1 /\
  fst (mget ["b"] w) = Returns [JNull] /\
  misses (stats (fst (snd (mget ["b"] w)))) = 0 /\
  misses (stats (fst (snd (get "b" w)))) = 1.
Proof. vm_compute. repeat split. Qed.

(** ** Counters along a history of calls *)

Lemma step_config (x : call) (w : World) : config (fst (step x w)) = config (fst w).
Proof.
  destruct w as [c r], x; cbn [step fst snd]; try reflexivity;
    destruct (up r) eqn:Hup.
  - rewrite get_up by done. unfold bump. cbn. repeat case_match; reflexivity.
  - rewrite get_down by done. unfold bump. case_match; reflexivity.
  - rewrite set_up by done. unfold bump. cbn. repeat case_match; reflexivity.
  - rewrite set_down by done. reflexivity.
  - rewrite delete_up by done. unfold bump. cbn. case_match; reflexivity.
  - rewrite delete_down by done. reflexivity.
  - rewrite has_up by done. reflexivity.
  - rewrite has_down by done. reflexivity.
  - rewrite mget_up by done. reflexivity.
  - rewrite mget_down by done. reflexivity.
  - rewrite mset_up by done. unfold bump. cbn. repeat case_match; reflexivity.
  - rewrite mset_down by done. reflexivity.
  - rewrite clear_always. unfold bump. case_match; reflexivity.
  - rewrite clear_always. unfold bump. case_match; reflexivity.
  - rewrite getStats_up by done. cbn. case_match; reflexivity.
  - rewrite getStats_down by done. reflexivity.
Qed.

(** One call moves the counters by what an observer of the server sees. *)
Lemma step_counters (x : call) (w : World) :
  enableStats (config (fst w)) = true ->
  let s := stats (fst w) in
  let s' := stats (fst (step x w)) in
  let t := observe [x] w in
  hits s' = hits s + found t /\
  misses s' = misses s + not_found t /\
  sets s' = sets s + stored t + stored_batch t /\
  (balanced s -> balanced s').
Proof.
  destruct w as [c r]. cbn [fst]. intros Hstats.
  destruct x; cbn [step observe fst snd]; unfold finds, stores, balanced;
    cbn [fst snd]; destruct (up r) eqn:Hup; cbn [andb].
  - rewrite get_up by done. unfold bump. cbn. rewrite Hstats.
    destruct (truthy (live r (getKey c key))); cbn; repeat split; auto; lia.
  - rewrite get_down by done. unfold bump. rewrite Hstats. cbn.
    repeat split; auto; lia.
  - rewrite set_up by done. unfold bump. cbn. rewrite Hstats.
    destruct (Z.leb_spec (ttlSeconds c ttl_arg) 0), (Z.leb_spec 1 (ttlSeconds c ttl_arg));
      try lia; cbn; repeat split; auto; lia.
  - rewrite set_down by done. cbn. repeat split; auto; lia.
  - rewrite delete_up by done. unfold bump. cbn. rewrite Hstats. cbn.
    repeat split; auto; lia.
  - rewrite delete_down by done. cbn. repeat split; auto; lia.
  - rewrite has_up by done. cbn. repeat split; auto; lia.
  - rewrite has_down by done. cbn. repeat split; auto; lia.
  - rewrite mget_up by done. cbn. repeat split; auto; lia.
  - rewrite mget_down by done. cbn. repeat split; auto; lia.
  - rewrite mset_up by done.
    destruct (EXEC_all_queued c r entries ttl_arg Hup) as (_ & _ & Hok & _).
    cbn zeta in Hok. rewrite Hok. unfold bump. cbn. rewrite Hstats.
    destruct (Z.leb_spec 1 (ttlSeconds c ttl_arg)); cbn.
    + repeat split; auto; lia.
    + destruct entries; cbn; repeat split; auto; lia.
  - rewrite mset_down by done. cbn. repeat split; auto; lia.
  - rewrite clear_always. unfold bump. rewrite Hstats. cbn. repeat split; auto; lia.
  - rewrite clear_always. unfold bump. rewrite Hstats. cbn. repeat split; auto; lia.
  - rewrite getStats_up by done. cbn. rewrite Hstats. cbn. repeat split; auto; lia.
  - rewrite getStats_down by done. cbn. repeat split; auto; lia.
  - cbn. repeat split; auto; lia.
  - cbn. repeat split; auto; lia.
  - cbn. repeat split; auto; lia.
  - cbn. repeat split; auto; lia.
Qed.

Lemma run_counters (xs : list call) (w : World) :
  enableStats (config (fst w)) = true ->
  let s := stats (fst w) in
  let s' := stats (fst (run xs w)) in
  let t := observe xs w in
  enableStats (config (fst (run xs w))) = true /\
  hits s' = hits s + found t /\
  misses s' = misses s + not_found t /\
  sets s' = sets s + stored t + stored_batch t /\
  (balanced s -> balanced s').
Proof.
  revert w. induction xs as [|x xs IH]; intros w Hstats.
  - cbn. repeat split; auto; lia.
  - destruct (step_counters x w Hstats) as (Hh & Hm & Hs & Hb).
    assert (Hstats' : enableStats (config (fst (step x w))) = true)
      by (rewrite step_config; exact Hstats).
    destruct (IH (step x w) Hstats') as (He & Hh' & Hm' & Hs' & Hb').
    cbn zeta in *. cbn [run]. rewrite Hh', Hm', Hs', Hh, Hm, Hs.
    split; [exact He|].
    cbn [observe] in *.
    destruct x; cbn [found not_found stored stored_batch] in *;
      repeat case_match; cbn [found not_found stored stored_batch] in *;
      repeat split; auto; lia.
Qed.

Lemma single_writes_store_no_batch (xs : list call) (w : World) :
  only_single_writes xs = true -> stored_batch (observe xs w) = 0.
Proof.
  revert w. induction xs as [|x xs IH]; intros w Hxs; [reflexivity|].
  cbn in Hxs. apply andb_true_iff in Hxs as [Hx Hxs].
  specialize (IH (step x w) Hxs).
  destruct x; cbn [observe]; try discriminate; repeat case_match; cbn; auto.
Qed.

(** C7: take a backend built with stats enabled and let any history of
    calls and of moves of its environment pass.  The snapshot [getStats()]
    then returns has [hits] equal to the number of [get] calls that found
    their key, [misses] equal to the number of [get] calls that did not,
    [sets] equal to the number of values stored by [set] calls (plus the
    entries stored by [mset] batches, none when the history has no
    [mset]), and [hitRate = hits / (hits + misses)] when
    [hits + misses > 0], [0] otherwise. *)
Theorem stats_follow_the_history (cfg : CacheConfig) (r : Server) (xs : list call) :
  opt_enableStats cfg <> Some false ->
  let t := observe xs (constructor cfg, r) in
  exists s w',
    getStats (run xs (constructor cfg, r)) = (Returns s, w') /\
    hits s = found t /\
    misses s = not_found t /\
    sets s = stored t + stored_batch t /\
    (only_single_writes xs = true -> sets s = stored t) /\
    hitRate s =
      (if 0 <? hits s + misses s
       then inject_Z (hits s) / inject_Z (hits s + misses s)
       else 0)%Q.
Proof.
  intros Hcfg t.
  assert (Hstats : enableStats (config (fst (constructor cfg, r))) = true).
  { cbn. destruct (opt_enableStats cfg) as [[|]|]; done. }
  destruct (run_counters xs (constructor cfg, r) Hstats) as (He & Hh & Hm & Hs & Hb).
  cbn zeta in *. fold t in Hh, Hm, Hs.
  specialize (Hb eq_refl).
  destruct (run xs (constructor cfg, r)) as [c' r'] eqn:Hrun. cbn [fst] in *.
  assert (Hbatch : only_single_writes xs = true -> stored_batch t = 0)
    by apply single_writes_store_no_batch.
  clearbody t. unfold balanced, rate in Hb.
  destruct (up r') eqn:Hup.
  - rewrite getStats_up by done. cbn zeta. rewrite He.
    do 2 eexists. split; [reflexivity|]. cbn in *.
    split; [lia|]. split; [lia|]. split; [lia|].
    split; [intros H; specialize (Hbatch H); lia | exact Hb].
  - rewrite getStats_down by done.
    do 2 eexists. split; [reflexivity|]. cbn in *.
    split; [lia|]. split; [lia|]. split; [lia|].
    split; [intros H; specialize (Hbatch H); lia | exact Hb].
Qed.

Lemma stats_follow_the_history_witness :
  let xs := [Set_ "user:42" (JObj [("xp", JNum 10)]) (Some 1000);
             Get "user:42"; Advance 1100; Get "user:42"] in
  exists s w',
    getStats (run xs (fresh, idle)) = (Returns s, w') /\
    hits s = 1 /\ misses s = 1 /\ sets s = 1 /\ hitRate s = (1 # 2)%Q.
Proof.
  intros xs.
  destruct (stats_follow_the_history no_options idle xs ltac:(discriminate))
    as (s & w' & Hrun & Hh & Hm & _ & Hs & Hq).
  exists s, w'. split; [exact Hrun|].
  split; [exact Hh|]. split; [exact Hm|]. split; [exact (Hs eq_refl)|].
  rewrite Hq, Hh, Hm. reflexivity.
Defined.

(** ** The key prefix *)

Lemma getKey_concatenates (c : Cache) (key : string) :
  getKey c key = keyPrefix (config c) +:+ key.
Proof. reflexivity. Qed.

(** Keys under two prefixes of which neither begins with the other never
    coincide. *)
Lemma unrelated_prefixes_give_distinct_keys (p q k k' : string) :
  String.prefix p q = false -> String.prefix q p = false -> p +:+ k <> q +:+ k'.
Proof.
  revert q. induction p as [|a p IH]; intros q Hpq Hqp;
    [destruct q; cbn in Hpq; discriminate|].
  destruct q as [|b q]; [cbn in Hqp; discriminate|].
  cbn in *. destruct (ascii_dec a b) as [->|Hab].
  - destruct (ascii_dec b b); [|done]. intros [= H]. exact (IH q Hpq Hqp H).
  - intros [= H _]. done.
Qed.

(** [set] and [delete] write under the full key and nowhere else. *)
Lemma set_writes_one_key c r key v ttl_arg fullKey :
  fullKey <> getKey c key ->
  db (snd (snd (RedisCache.set key v ttl_arg (c, r)))) !! fullKey = db r !! fullKey.
Proof.
  intros Hne. destruct (up r) eqn:Hup.
  - rewrite set_up by done. case_match; [reflexivity|].
    cbn. rewrite lookup_insert_ne by done. reflexivity.
  - rewrite set_down by done. reflexivity.
Qed.

Lemma delete_removes_one_key c r key fullKey :
  fullKey <> getKey c key ->
  db (snd (snd (RedisCache.delete key (c, r)))) !! fullKey = db r !! fullKey.
Proof.
  intros Hne. destruct (up r) eqn:Hup.
  - rewrite delete_up by done. cbn. rewrite lookup_delete_ne by done. reflexivity.
  - rewrite delete_down by done. reflexivity.
Qed.

Lemma EXEC_all_frame c entries ttl_arg fullKey : forall r,
  (forall key, fullKey <> getKey c key) ->
  db (snd (EXEC_all r (queued c entries ttl_arg))) !! fullKey = db r !! fullKey.
Proof.
  induction entries as [|[k v] entries IH]; intros r Hne; [reflexivity|].
  change (queued c ((k, v) :: entries) ttl_arg)
    with ((getKey c k, ttlSeconds c ttl_arg, serialize v) :: queued c entries ttl_arg).
  cbn [EXEC_all]. unfold SETEX.
  destruct (up r); [destruct (ttlSeconds c ttl_arg <=? 0)|].
  - specialize (IH r Hne). destruct (EXEC_all r _). exact IH.
  - match goal with |- context [EXEC_all ?r1 _] => set (r1' := r1) end.
    specialize (IH r1' Hne). destruct (EXEC_all r1' _) as [ok r2]. cbn in *.
    rewrite IH. unfold r1'. cbn. apply lookup_insert_ne. auto.
  - specialize (IH r Hne). destruct (EXEC_all r _). exact IH.
Qed.

(** No call writes outside the keys that begin with the prefix, and no
    method moves the clock or the reachability of the server. *)
Lemma calls_write_under_the_prefix (x : call) (c : Cache) (r : Server) (fullKey : string) :
  (forall key, fullKey <> getKey c key) ->
  db (snd (step x (c, r))) !! fullKey = db r !! fullKey.
Proof.
  intros Hne. destruct x; cbn [step fst snd]; try reflexivity; destruct (up r) eqn:Hup.
  - rewrite get_up by done. case_match; reflexivity.
  - rewrite get_down by done. reflexivity.
  - apply set_writes_one_key, Hne.
  - apply set_writes_one_key, Hne.
  - apply delete_removes_one_key, Hne.
  - apply delete_removes_one_key, Hne.
  - rewrite has_up by done. reflexivity.
  - rewrite has_down by done. reflexivity.
  - rewrite mget_up by done. reflexivity.
  - rewrite mget_down by done. reflexivity.
  - rewrite mset_up by done. cbn [snd]. apply EXEC_all_frame, Hne.
  - rewrite mset_down by done. reflexivity.
  - rewrite clear_always. reflexivity.
  - rewrite clear_always. reflexivity.
  - rewrite getStats_up by done. reflexivity.
  - rewrite getStats_down by done. reflexivity.
Qed.

Lemma methods_keep_the_clock (x : call) (c : Cache) (r : Server) :
  is_method x = true ->
  now (snd (step x (c, r))) = now r /\ up (snd (step x (c, r))) = up r.
Proof.
  intros Hx. destruct x; try discriminate; cbn [step fst snd]; destruct (up r) eqn:Hup.
  - rewrite get_up by done. case_match; auto.
  - rewrite get_down by done. auto.
  - rewrite set_up by done. case_match; auto.
  - rewrite set_down by done. auto.
  - rewrite delete_up by done. auto.
  - rewrite delete_down by done. auto.
  - rewrite has_up by done. auto.
  - rewrite has_down by done. auto.
  - rewrite mget_up by done. auto.
  - rewrite mget_down by done. auto.
  - rewrite mset_up by done. cbn [snd].
    destruct (EXEC_all_queued c r entries ttl_arg Hup) as (H1 & H2 & _). auto.
  - rewrite mset_down by done. auto.
  - rewrite clear_always. auto.
  - rewrite clear_always. auto.
  - rewrite getStats_up by done. auto.
  - rewrite getStats_down by done. auto.
Qed.

(** X20: two caches on one server whose prefixes do not begin with one
    another: whatever method the first one calls, the second one's [get] and
    [has] answer each of its keys as before. *)
Lemma other_deployment_reads_the_same (x : call) (c c2 : Cache) (r : Server) (key : string) :
  String.prefix (keyPrefix (config c)) (keyPrefix (config c2)) = false ->
  String.prefix (keyPrefix (config c2)) (keyPrefix (config c)) = false ->
  is_method x = true ->
  fst (get key (c2, snd (step x (c, r)))) = fst (get key (c2, r)) /\
  fst (has key (c2, snd (step x (c, r)))) = fst (has key (c2, r)).
Proof.
  intros H12 H21 Hx.
  destruct (methods_keep_the_clock x c r Hx) as [Hnow Hup'].
  assert (Hdb : db (snd (step x (c, r))) !! getKey c2 key = db r !! getKey c2 key).
  { apply calls_write_under_the_prefix. intros k.
    apply unrelated_prefixes_give_distinct_keys; assumption. }
  assert (Hlive : live (snd (step x (c, r))) (getKey c2 key) = live r (getKey c2 key)).
  { unfold live. rewrite Hdb, Hnow. reflexivity. }
  rewrite !get_answer, Hup'. unfold read. rewrite Hlive. split; [reflexivity|].
  destruct (up r) eqn:Hup.
  - rewrite !has_up by congruence. unfold visible. rewrite Hlive. reflexivity.
  - rewrite !has_down by congruence. reflexivity.
Qed.

Lemma code_eqb (a b : ascii) : (code a =? code b) = if ascii_dec a b then true else false.
Proof.
  destruct (ascii_dec a b) as [->|Hne]; [apply Z.eqb_refl|].
  apply Z.eqb_neq. unfold code. intros H. apply Nat2Z.inj in H.
  apply Hne. rewrite <- (ascii_nat_embedding a), <- (ascii_nat_embedding b). congruence.
Qed.

Lemma star_matches_all (s : list ascii) : Glob.matches [Glob.TStar] s = true.
Proof. induction s as [|c s IH]; cbn; [reflexivity|]. exact IH. Qed.

(** A prefix without pattern characters, followed by a star, matches the
    keys that begin with the prefix. *)
Lemma plain_prefix_pattern (p k : string) :
  Glob.plain p = true -> p <> EmptyString ->
  Glob.stringmatch (p +:+ "*") k = String.prefix p k.
Proof.
  intros Hplain Hp. unfold Glob.stringmatch.
  destruct k as [|b k].
  - destruct p; done.
  - clear Hp. generalize (String b k) as s. clear b k. intros s. revert s.
    induction p as [|a p IH]; intros s.
    + cbn. destruct s; apply star_matches_all.
    + cbn in Hplain. apply andb_true_iff in Hplain as [Ha Hplain].
      apply negb_true_iff in Ha. unfold Glob.special in Ha.
      apply orb_false_iff in Ha as [Ha H92].
      apply orb_false_iff in Ha as [Ha H91].
      apply orb_false_iff in Ha as [H42 H63].
      change (String a p +:+ "*") with (String a (p +:+ "*")).
      cbn [list_ascii_of_string Glob.tokens].
      rewrite H42, H63, H91, H92.
      destruct s as [|b s]; [reflexivity|].
      cbn [list_ascii_of_string Glob.matches String.prefix]. rewrite code_eqb.
      destruct (ascii_dec a b); [apply IH; exact Hplain | reflexivity].
Qed.

(** For a prefix that holds none of the pattern characters [*], [?], [[]
    and [\] (the default ["dvt:"] is such a prefix) the pattern selects the
    keys that begin with the prefix: when the call is answered and stats
    are enabled, the size [getStats] stores is the number of unexpired keys
    of [Redis.SCAN] that begin with it.  This is a statement about the keys
    of [Redis.SCAN], an iteration that yields every key once; a client that
    yields a page per item, or a cursor that repeats keys, gives another
    count. *)
Lemma size_counts_keys_with_plain_prefix (c : Cache) (r : Server) :
  up r = true -> enableStats (config c) = true ->
  Glob.plain (keyPrefix (config c)) = true -> keyPrefix (config c) <> EmptyString ->
  exists s w',
    getStats (c, r) = (Returns s, w') /\
    size s =
      Z.of_nat (length (List.filter
                          (fun k => visible r k && String.prefix (keyPrefix (config c)) k)
                          (List.map fst (map_to_list (db r))))).
Proof.
  intros Hup Hstats Hplain Hp. rewrite getStats_up by done. cbn zeta. rewrite Hstats.
  do 2 eexists. split; [reflexivity|]. cbn. unfold matching. do 2 f_equal.
  apply List.filter_ext. intros k. rewrite plain_prefix_pattern by done. reflexivity.
Qed.

(** C8, as the code has it: the size is counted by a glob pattern made of
    the prefix and a star.  The prefixes ["bot[1]:"] and ["bot1:"] do not
    begin with one another.  After the first deployment has written its key
    ["x"], its [getStats().size] is [0]; after the second has written its
    key ["y"], the first deployment's [getStats().size] is [1]: it counts
    the other's entry and not its own. *)
Theorem size_is_counted_by_a_glob_pattern :
  let w1 := snd (RedisCache.set "x" (JNum 1) None (bracketed, idle)) in
  let w2 := snd (RedisCache.set "y" (JNum 2) None (unbracketed, snd w1)) in
  String.prefix "bot[1]:" "bot1:" = false /\
  String.prefix "bot1:" "bot[1]:" = false /\
  List.map fst (map_to_list (db (snd w1))) = ["bot[1]:x"] /\
  fst (get "x" w1) = Returns (JNum 1) /\
  size (snapshot w1) = 0 /\
  List.map fst (map_to_list (db (snd w2))) = ["bot[1]:x"; "bot1:y"] /\
  size (snapshot (fst w1, snd w2)) = 1.
Proof. vm_compute. repeat split. Qed.

(** * Further properties of the networked backend *)

(** ** Helpers: what a call answers and what it leaves on the server *)

Lemma append_injective (p a b : string) : p +:+ a = p +:+ b -> a = b.
Proof.
  induction p as [|x p IH]; [exact (fun H => H)|].
  change (String x p +:+ a) with (String x (p +:+ a)).
  change (String x p +:+ b) with (String x (p +:+ b)).
  intros [= H]. exact (IH H).
Qed.

Lemma getKey_injective (c : Cache) (k k' : string) : getKey c k = getKey c k' -> k = k'.
Proof. apply append_injective. Qed.

Lemma getKey_same_config (c c' : Cache) (key : string) :
  config c' = config c -> getKey c' key = getKey c key.
Proof. unfold getKey. intros ->. reflexivity. Qed.

Lemma has_answer c r key :
  fst (has key (c, r)) = Returns (up r && visible r (getKey c key)).
Proof.
  destruct (up r) eqn:Hup.
  - rewrite has_up by done. reflexivity.
  - rewrite has_down by done. reflexivity.
Qed.

Lemma run_config (xs : list call) (w : World) : config (fst (run xs w)) = config (fst w).
Proof.
  revert w. induction xs as [|x xs IH]; intros w; [reflexivity|].
  cbn [run]. rewrite IH. apply step_config.
Qed.

Lemma set_config c r key v ttl_arg :
  config (fst (snd (RedisCache.set key v ttl_arg (c, r)))) = config c.
Proof. exact (step_config (Set_ key v ttl_arg) (c, r)). Qed.

Lemma delete_config c r key :
  config (fst (snd (RedisCache.delete key (c, r)))) = config c.
Proof. exact (step_config (Delete key) (c, r)). Qed.

Lemma mset_config c r entries ttl_arg :
  config (fst (snd (mset entries ttl_arg (c, r)))) = config c.
Proof. exact (step_config (Mset entries ttl_arg) (c, r)). Qed.

(** ** Reconnection delays *)

(** X1: the reconnect strategy waits 100 ms doubled once per failed attempt
    and never more than 3000 ms: the delays are 100, 200, 400, 800 and 1600
    ms for the first five attempts and 3000 ms from the sixth on, and they
    never decrease from one attempt to the next. *)
Theorem reconnect_delay_is_capped (retries : Z) :
  0 <= retries ->
  100 <= reconnectStrategy retries <= 3000 /\
  (retries <= 4 -> reconnectStrategy retries = 100 * 2 ^ retries) /\
  (5 <= retries -> reconnectStrategy retries = 3000) /\
  reconnectStrategy retries <= reconnectStrategy (retries + 1).
Proof.
  intros Hr. unfold reconnectStrategy.
  assert (H1 : 1 <= 2 ^ retries).
  { change 1 with (2 ^ 0). apply Z.pow_le_mono_r; lia. }
  assert (Hs : 2 ^ (retries + 1) = 2 * 2 ^ retries).
  { rewrite Z.pow_add_r by lia. lia. }
  assert (H4 : retries <= 4 -> 2 ^ retries <= 16).
  { intros H. change 16 with (2 ^ 4). apply Z.pow_le_mono_r; lia. }
  assert (H5 : 5 <= retries -> 32 <= 2 ^ retries).
  { intros H. change 32 with (2 ^ 5). apply Z.pow_le_mono_r; lia. }
  rewrite Hs. repeat split; intros; lia.
Qed.

Lemma reconnect_delay_is_capped_witness :
  List.map reconnectStrategy [0; 1; 2; 3; 4; 5; 6] = [100; 200; 400; 800; 1600; 3000; 3000] /\
  100 <= reconnectStrategy 7 <= 3000.
Proof.
  split; [reflexivity|].
  exact (proj1 (reconnect_delay_is_capped 7 ltac:(lia))).
Defined.

(** ** The configuration *)

(** X2: the configuration is fixed by the constructor and no call ever
    changes it; whatever options the caller passes, the key prefix and the
    URL in use are never empty and the default TTL is never zero (an absent
    or empty prefix is ["dvt:"], an absent or zero TTL is 300000 ms), and
    stats are on unless [enableStats] was given as [false]. *)
Theorem configuration_is_fixed_at_construction
    (cfg : CacheConfig) (r : Server) (xs : list call) :
  let c := fst (run xs (constructor cfg, r)) in
  config c = config (constructor cfg) /\
  keyPrefix (config c) <> EmptyString /\
  url (config c) <> EmptyString /\
  ttl (config c) <> 0 /\
  (opt_keyPrefix cfg = None \/ opt_keyPrefix cfg = Some EmptyString ->
   keyPrefix (config c) = "dvt:") /\
  (opt_ttl cfg = None \/ opt_ttl cfg = Some 0 -> ttl (config c) = 300000) /\
  (enableStats (config c) = false <-> opt_enableStats cfg = Some false).
Proof.
  cbn zeta. rewrite run_config. cbn [fst].
  destruct cfg as [t m e u p]. cbn.
  repeat split.
  - destruct p as [[|]|]; discriminate.
  - destruct u as [[|]|]; discriminate.
  - destruct t as [t|]; [|discriminate]. cbn.
    destruct (Z.eqb_spec t 0); [discriminate | assumption].
  - intros [->| ->]; reflexivity.
  - intros [->| ->]; reflexivity.
  - destruct e as [[|]|]; done.
  - destruct e as [[|]|]; done.
Qed.

(** ** [delete] *)

Lemma delete_server c r key :
  snd (snd (RedisCache.delete key (c, r))) =
    if up r then mkServer (base.delete (getKey c key) (db r)) (now r) (up r) else r.
Proof.
  destruct (up r) eqn:Hup.
  - rewrite delete_up by done. cbn. rewrite Hup. reflexivity.
  - rewrite delete_down by done. reflexivity.
Qed.

(** X3: once [delete(key)] has reached the server, the key is gone for
    good: at any later time [get(key)] answers absent and [has(key)] answers
    [false], whatever was stored under it. *)
Theorem delete_then_get_is_absent (c : Cache) (r : Server) (key : string) (d : Z) :
  up r = true ->
  let w := snd (RedisCache.delete key (c, r)) in
  fst (get key (fst w, advance d (snd w))) = Returns JNull /\
  fst (has key (fst w, advance d (snd w))) = Returns false.
Proof.
  intros Hup w.
  assert (Hlive : live (advance d (snd w)) (getKey (fst w) key) = None).
  { subst w. rewrite (getKey_same_config c) by apply delete_config.
    rewrite delete_server, Hup. unfold live. cbn. rewrite lookup_delete_eq. reflexivity. }
  rewrite get_answer, has_answer. unfold read, visible. rewrite Hlive.
  split; [destruct (up (advance d (snd w))); reflexivity | rewrite andb_false_r; reflexivity].
Qed.

Lemma delete_then_get_is_absent_witness :
  let w0 := snd (RedisCache.set "user:42" (JNum 7) None (fresh, idle)) in
  let w := snd (RedisCache.delete "user:42" w0) in
  fst (get "user:42" w0) = Returns (JNum 7) /\
  fst (get "user:42" (fst w, advance 0 (snd w))) = Returns JNull.
Proof.
  intros w0 w. split; [vm_compute; reflexivity|].
  exact (proj1 (delete_then_get_is_absent (fst w0) (snd w0) "user:42" 0 eq_refl)).
Defined.

(** X4: [delete(key)] leaves every other key of the same cache as it was:
    for [other <> key], [get(other)] and [has(other)] answer after the call,
    and after any further lapse of time, what they would have answered
    without it. *)
Theorem delete_leaves_other_keys (c : Cache) (r : Server) (key other : string) (d : Z) :
  other <> key ->
  let w := snd (RedisCache.delete key (c, r)) in
  fst (get other (fst w, advance d (snd w))) = fst (get other (c, advance d r)) /\
  fst (has other (fst w, advance d (snd w))) = fst (has other (c, advance d r)).
Proof.
  intros Hne w.
  assert (Hk : getKey (fst w) other = getKey c other)
    by (subst w; apply getKey_same_config, delete_config).
  assert (Hup : up (advance d (snd w)) = up (advance d r)).
  { subst w. rewrite delete_server. destruct (up r) eqn:E; cbn; congruence. }
  assert (Hlive : live (advance d (snd w)) (getKey c other) =
                  live (advance d r) (getKey c other)).
  { subst w. rewrite delete_server. destruct (up r); [|reflexivity].
    unfold live. cbn. rewrite lookup_delete_ne; [reflexivity|].
    intros H. apply Hne. symmetry. exact (getKey_injective c _ _ H). }
  rewrite !get_answer, !has_answer. unfold read, visible. rewrite Hk, Hup, Hlive. auto.
Qed.

Lemma delete_leaves_other_keys_witness :
  let w0 := snd (RedisCache.set "a" (JNum 1) None (fresh, idle)) in
  let w := snd (RedisCache.delete "b" w0) in
  fst (get "a" (fst w, advance 5 (snd w))) = Returns (JNum 1).
Proof.
  intros w0 w.
  etransitivity;
    [exact (proj1 (delete_leaves_other_keys (fst w0) (snd w0) "b" "a" 5
                     ltac:(discriminate)))
    | vm_compute; reflexivity].
Defined.

(** X5: deleting a key that is not on the server is no error: when the
    client's calls are answered, the call returns, the server is left as it
    was, and with stats enabled [deletes] is incremented all the same. *)
Theorem delete_of_a_missing_key (c : Cache) (r : Server) (key : string) :
  up r = true ->
  enableStats (config c) = true ->
  db r !! getKey c key = None ->
  exists c' r',
    RedisCache.delete key (c, r) = (Returns tt, (c', r')) /\
    db r' = db r /\ now r' = now r /\ up r' = up r /\
    deletes (stats c') = deletes (stats c) + 1.
Proof.
  intros Hup Hstats Hdb.
  rewrite delete_up by done. unfold bump, linked. cbn [set_connected config].
  rewrite Hstats. do 2 eexists. split; [reflexivity|]. cbn.
  repeat split. apply delete_id. exact Hdb.
Qed.

Lemma delete_of_a_missing_key_witness :
  exists c' r',
    RedisCache.delete "nobody" (fresh, idle) = (Returns tt, (c', r')) /\
    db r' = db idle /\ deletes (stats c') = 1.
Proof.
  destruct (delete_of_a_missing_key fresh idle "nobody" eq_refl eq_refl eq_refl)
    as (c' & r' & H & Hdb & _ & _ & Hd).
  exists c', r'. repeat split; assumption.
Defined.

(** ** [set] *)

Lemma set_server c r key v ttl_arg :
  snd (snd (RedisCache.set key v ttl_arg (c, r))) =
    if up r && (1 <=? ttlSeconds c ttl_arg)
    then mkServer
           (<[getKey c key := mkEntry (serialize v) (now r + ttlSeconds c ttl_arg * 1000)]>
              (db r))
           (now r) (up r)
    else r.
Proof.
  destruct (up r) eqn:Hup.
  - rewrite set_up by done.
    destruct (Z.leb_spec (ttlSeconds c ttl_arg) 0), (Z.leb_spec 1 (ttlSeconds c ttl_arg));
      try lia; cbn; rewrite ?Hup; reflexivity.
  - rewrite set_down by done. reflexivity.
Qed.

Lemma ttlSeconds_same_config (c c' : Cache) ttl_arg :
  config c' = config c -> ttlSeconds c' ttl_arg = ttlSeconds c ttl_arg.
Proof. unfold ttlSeconds. intros ->. reflexivity. Qed.

(** X6: the last write wins.  When a second [set] on the same key is
    stored, a later [get] answers exactly what it would answer had the first
    [set] never happened: the value and the expiry are those of the second
    write. *)
Theorem set_overwrites_the_previous_value
    (c : Cache) (r : Server) (key : string) (v1 v2 : json) (t1 t2 : option Z) (d : Z) :
  up r = true -> 1 <= ttlSeconds c t2 -> 0 <= d ->
  let w1 := snd (RedisCache.set key v1 t1 (c, r)) in
  let w2 := snd (RedisCache.set key v2 t2 (fst w1, snd w1)) in
  let direct := snd (RedisCache.set key v2 t2 (c, r)) in
  fst (get key (fst w2, advance d (snd w2))) =
    fst (get key (fst direct, advance d (snd direct))) /\
  fst (get key (fst w2, advance d (snd w2))) =
    Returns (if d <=? ttlSeconds c t2 * 1000 then answer_of (serialize v2) else JNull).
Proof.
  intros Hup Httl Hd w1 w2 direct.
  assert (Hc1 : config (fst w1) = config c) by apply set_config.
  assert (Hup1 : up (snd w1) = true).
  { subst w1. rewrite set_server. destruct (up r && _); cbn; exact Hup. }
  assert (Hnow1 : now (snd w1) = now r).
  { subst w1. rewrite set_server. destruct (up r && _); reflexivity. }
  subst w2 direct.
  rewrite (get_after_set (fst w1) (snd w1)), (get_after_set c r);
    rewrite ?(ttlSeconds_same_config c (fst w1)); auto.
Qed.

Lemma set_overwrites_the_previous_value_witness :
  let w1 := snd (RedisCache.set "k" (JNum 1) (Some 60000) (fresh, idle)) in
  let w2 := snd (RedisCache.set "k" (JNum 2) (Some 5000) (fst w1, snd w1)) in
  fst (get "k" (fst w2, advance 4000 (snd w2))) = Returns (JNum 2) /\
  fst (get "k" (fst w2, advance 6000 (snd w2))) = Returns JNull.
Proof.
  intros w1 w2. split.
  - etransitivity;
      [exact (proj2 (set_overwrites_the_previous_value fresh idle "k" (JNum 1) (JNum 2)
                       (Some 60000) (Some 5000) 4000 eq_refl
                       ltac:(vm_compute; discriminate) ltac:(lia)))
      | vm_compute; reflexivity].
  - etransitivity;
      [exact (proj2 (set_overwrites_the_previous_value fresh idle "k" (JNum 1) (JNum 2)
                       (Some 60000) (Some 5000) 6000 eq_refl
                       ltac:(vm_compute; discriminate) ltac:(lia)))
      | vm_compute; reflexivity].
Defined.

(** X7: [set(key, ...)] leaves every other key of the same cache as it
    was: for [other <> key], [get(other)] and [has(other)] answer after the
    call, and after any further lapse of time, what they would have answered
    without it. *)
Theorem set_leaves_other_keys
    (c : Cache) (r : Server) (key other : string) (v : json) (ttl_arg : option Z) (d : Z) :
  other <> key ->
  let w := snd (RedisCache.set key v ttl_arg (c, r)) in
  fst (get other (fst w, advance d (snd w))) = fst (get other (c, advance d r)) /\
  fst (has other (fst w, advance d (snd w))) = fst (has other (c, advance d r)).
Proof.
  intros Hne w.
  assert (Hk : getKey (fst w) other = getKey c other)
    by (subst w; apply getKey_same_config, set_config).
  assert (Hup : up (advance d (snd w)) = up (advance d r)).
  { subst w. rewrite set_server. destruct (up r && _); reflexivity. }
  assert (Hlive : live (advance d (snd w)) (getKey c other) =
                  live (advance d r) (getKey c other)).
  { subst w. rewrite set_server. destruct (up r && _); [|reflexivity].
    unfold live. cbn. rewrite lookup_insert_ne; [reflexivity|].
    intros H. apply Hne. symmetry. exact (getKey_injective c _ _ H). }
  rewrite !get_answer, !has_answer. unfold read, visible. rewrite Hk, Hup, Hlive. auto.
Qed.

Lemma set_leaves_other_keys_witness :
  let w0 := snd (RedisCache.set "a" (JNum 1) None (fresh, idle)) in
  let w := snd (RedisCache.set "b" (JNum 2) None (fst w0, snd w0)) in
  fst (get "a" (fst w, advance 5 (snd w))) = Returns (JNum 1).
Proof.
  intros w0 w.
  etransitivity;
    [exact (proj1 (set_leaves_other_keys (fst w0) (snd w0) "b" "a" (JNum 2) None 5
                     ltac:(discriminate)))
    | vm_compute; reflexivity].
Defined.

(** X8: a TTL below one second stores nothing.  When
    [(ttlOverride or defaultTtl)] is less than 1000 ms (zero seconds after
    rounding down, or negative), [set] returns without throwing, the server
    is left exactly as it was, so that a value stored earlier under the key
    stays readable, and [sets] is not incremented.  An override of [0]
    stands for the default TTL. *)
Theorem set_with_sub_second_ttl_stores_nothing
    (c : Cache) (r : Server) (key : string) (v : json) (ttl_arg : option Z) :
  RedisCache.or_number ttl_arg (ttl (config c)) < 1000 ->
  exists c',
    RedisCache.set key v ttl_arg (c, r) = (Returns tt, (c', r)) /\
    stats c' = stats c /\ config c' = config c /\
    (forall k d, fst (get k (c', advance d r)) = fst (get k (c, advance d r))) /\
    ttlSeconds c (Some 0) = ttlSeconds c None.
Proof.
  intros Hlt.
  assert (Hs : ttlSeconds c ttl_arg <= 0).
  { unfold ttlSeconds. apply Z.lt_succ_r. apply Z.div_lt_upper_bound; lia. }
  destruct (up r) eqn:Hup.
  - rewrite set_up by done.
    destruct (Z.leb_spec (ttlSeconds c ttl_arg) 0); [|lia].
    eexists. split; [reflexivity|]. repeat split.
    intros k d. rewrite !get_answer. reflexivity.
  - rewrite set_down by done. eexists. split; [reflexivity|]. repeat split.
Qed.

Lemma set_with_sub_second_ttl_stores_nothing_witness :
  exists c',
    RedisCache.set "k" (JNum 2) (Some 999) (fresh, idle) = (Returns tt, (c', idle)) /\
    sets (stats c') = 0.
Proof.
  destruct (set_with_sub_second_ttl_stores_nothing fresh idle "k" (JNum 2) (Some 999)
              ltac:(vm_compute; reflexivity)) as (c' & Hset & Hstats & _).
  exists c'. split; [exact Hset|]. rewrite Hstats. reflexivity.
Defined.

(** ** Batches *)

Lemma queued_same_config (c c' : Cache) entries ttl_arg :
  config c' = config c -> queued c' entries ttl_arg = queued c entries ttl_arg.
Proof. unfold queued, getKey, ttlSeconds. intros ->. reflexivity. Qed.

Lemma EXEC_all_down r queue : up r = false -> snd (EXEC_all r queue) = r.
Proof.
  intros Hup. induction queue as [|[[k s] v] queue IH]; [reflexivity|].
  cbn [EXEC_all]. unfold SETEX. rewrite Hup.
  destruct (EXEC_all r queue). cbn in *. exact IH.
Qed.

Lemma set_each_server (entries : list (string * json)) ttl_arg : forall c r,
  snd (set_each entries ttl_arg (c, r)) =
    if up r then snd (EXEC_all r (queued c entries ttl_arg)) else r.
Proof.
  induction entries as [|[k v] entries IH]; intros c r.
  - cbn. destruct (up r); reflexivity.
  - cbn [set_each fst snd].
    destruct (RedisCache.set k v ttl_arg (c, r)) as [res [c1 r1]] eqn:Hset.
    cbn [snd]. rewrite IH.
    assert (Hc1 : config c1 = config c).
    { pose proof (set_config c r k v ttl_arg) as H. rewrite Hset in H. exact H. }
    assert (Hr1 : r1 = snd (snd (RedisCache.set k v ttl_arg (c, r)))) by (rewrite Hset; reflexivity).
    rewrite set_server in Hr1.
    rewrite (queued_same_config c c1) by exact Hc1.
    change (queued c ((k, v) :: entries) ttl_arg)
      with ((getKey c k, ttlSeconds c ttl_arg, serialize v) :: queued c entries ttl_arg).
    cbn [EXEC_all]. unfold SETEX.
    destruct (up r) eqn:Hup; cbn [andb] in Hr1.
    + destruct (Z.leb_spec (ttlSeconds c ttl_arg) 0), (Z.leb_spec 1 (ttlSeconds c ttl_arg));
        try lia; subst r1; cbn [up]; rewrite ?Hup.
      * destruct (EXEC_all r _). reflexivity.
      * match goal with |- context [EXEC_all ?r1 _] => destruct (EXEC_all r1 _) end.
        reflexivity.
    + subst r1. rewrite Hup. reflexivity.
Qed.

Lemma set_each_stats (entries : list (string * json)) ttl_arg : forall c r,
  let s := stats c in
  let s' := stats (fst (set_each entries ttl_arg (c, r))) in
  hits s' = hits s /\ misses s' = misses s /\ deletes s' = deletes s /\
  size s' = size s /\ hitRate s' = hitRate s /\
  sets s' =
    sets s + (if enableStats (config c) && up r && (1 <=? ttlSeconds c ttl_arg)
              then Z.of_nat (length entries) else 0).
Proof.
  induction entries as [|[k v] entries IH]; intros c r.
  - cbn. repeat split; auto. destruct (_ && _); lia.
  - cbn [set_each fst snd].
    destruct (RedisCache.set k v ttl_arg (c, r)) as [res [c1 r1]] eqn:Hset.
    cbn [snd]. specialize (IH c1 r1). cbn zeta in *.
    destruct IH as (Hh & Hm & Hd & Hz & Hq & Hs).
    rewrite Hh, Hm, Hd, Hz, Hq, Hs. clear Hh Hm Hd Hz Hq Hs.
    assert (Hc1 : config c1 = config c).
    { pose proof (set_config c r k v ttl_arg) as H. rewrite Hset in H. exact H. }
    rewrite (ttlSeconds_same_config c c1), Hc1 by exact Hc1.
    destruct (up r) eqn:Hup.
    + rewrite set_up in Hset by done.
      destruct (Z.leb_spec (ttlSeconds c ttl_arg) 0), (Z.leb_spec 1 (ttlSeconds c ttl_arg));
        try lia; injection Hset as _ <- <-; unfold bump, linked;
        cbn [length up set_connected set_stats config stats count_sets
             hits misses sets deletes size hitRate andb];
        rewrite ?Hup, ?Nat2Z.inj_succ;
        destruct (enableStats (config c));
        cbn [length up set_connected set_stats config stats count_sets
             hits misses sets deletes size hitRate andb];
        repeat split; auto; lia.
    + rewrite set_down in Hset by done. injection Hset as _ <- <-. rewrite Hup.
      rewrite !andb_false_r. cbn [andb]. repeat split; auto; lia.
Qed.

(** X9: [mset(entries, ttl)] leaves the server exactly as one
    [set(key, value, ttl)] per entry, in order, would leave it, and
    the counters as well ([sets] grows by the number of entries when they
    are stored, by nothing otherwise): the batch is stored as a whole or
    not at all, and it never throws. *)
Theorem mset_is_one_set_per_entry
    (c : Cache) (r : Server) (entries : list (string * json)) (ttl_arg : option Z) :
  exists c',
    mset entries ttl_arg (c, r) =
      (Returns tt, (c', snd (set_each entries ttl_arg (c, r)))) /\
    let s := stats (fst (set_each entries ttl_arg (c, r))) in
    hits (stats c') = hits s /\ misses (stats c') = misses s /\
    sets (stats c') = sets s /\ deletes (stats c') = deletes s /\
    size (stats c') = size s /\ hitRate (stats c') = hitRate s.
Proof.
  destruct (set_each_stats entries ttl_arg c r) as (Hh & Hm & Hd & Hz & Hq & Hs).
  cbn zeta in *. rewrite set_each_server, Hh, Hm, Hd, Hz, Hq, Hs.
  destruct (up r) eqn:Hup.
  - rewrite mset_up by done.
    destruct (EXEC_all_queued c r entries ttl_arg Hup) as (_ & _ & Hok & _).
    cbn zeta in Hok. rewrite Hok. eexists. split; [reflexivity|].
    unfold bump, linked. cbn.
    destruct (Z.leb_spec 1 (ttlSeconds c ttl_arg)); cbn.
    + destruct (enableStats (config c)); cbn; repeat split; lia.
    + rewrite andb_false_r. destruct entries; cbn;
        destruct (enableStats (config c)); cbn; repeat split; lia.
  - rewrite mset_down by done. eexists. split; [reflexivity|].
    rewrite andb_false_r. cbn. repeat split; lia.
Qed.

Lemma EXEC_all_lookup c ttl_arg (entries : list (string * json)) : forall r k v,
  up r = true -> 1 <= ttlSeconds c ttl_arg ->
  NoDup (List.map fst entries) -> (k, v) ∈ entries ->
  db (snd (EXEC_all r (queued c entries ttl_arg))) !! getKey c k =
    Some (mkEntry (serialize v) (now r + ttlSeconds c ttl_arg * 1000)).
Proof.
  induction entries as [|[k0 v0] entries IH]; intros r k v Hup Httl Hnd Hin;
    [by apply elem_of_nil in Hin|].
  cbn in Hnd. apply NoDup_cons in Hnd as [Hk0 Hnd].
  change (queued c ((k0, v0) :: entries) ttl_arg)
    with ((getKey c k0, ttlSeconds c ttl_arg, serialize v0) :: queued c entries ttl_arg).
  cbn [EXEC_all]. unfold SETEX. rewrite Hup.
  destruct (Z.leb_spec (ttlSeconds c ttl_arg) 0); [lia|].
  match goal with |- context [EXEC_all ?r1 _] => set (r1' := r1) end.
  apply elem_of_cons in Hin as [[= -> ->]|Hin].
  - assert (Hrest : forall r2,
               now r2 = now r ->
               db r2 !! getKey c k0 =
                 Some (mkEntry (serialize v0) (now r + ttlSeconds c ttl_arg * 1000)) ->
               db (snd (EXEC_all r2 (queued c entries ttl_arg))) !! getKey c k0 =
                 Some (mkEntry (serialize v0) (now r + ttlSeconds c ttl_arg * 1000))).
    { clear IH r1'. induction entries as [|[k1 v1] entries IH]; intros r2 Hnow H2;
        [exact H2|].
      cbn in Hk0, Hnd. apply not_elem_of_cons in Hk0 as [Hne Hk0].
      apply NoDup_cons in Hnd as [_ Hnd].
      change (queued c ((k1, v1) :: entries) ttl_arg)
        with ((getKey c k1, ttlSeconds c ttl_arg, serialize v1) :: queued c entries ttl_arg).
      cbn [EXEC_all]. unfold SETEX.
      destruct (up r2); [destruct (ttlSeconds c ttl_arg <=? 0)|].
      - specialize (IH Hk0 Hnd r2 Hnow H2). destruct (EXEC_all r2 _). exact IH.
      - match goal with |- context [EXEC_all ?r3 _] => set (r3' := r3) end.
        specialize (IH Hk0 Hnd r3' Hnow).
        destruct (EXEC_all r3' _). apply IH. unfold r3'. cbn.
        rewrite lookup_insert_ne; [exact H2|].
        intros Heq. apply Hne. symmetry. exact (getKey_injective c _ _ Heq).
      - specialize (IH Hk0 Hnd r2 Hnow H2). destruct (EXEC_all r2 _). exact IH. }
    specialize (Hrest r1' eq_refl). destruct (EXEC_all r1' _). apply Hrest.
    unfold r1'. cbn. apply lookup_insert_eq.
  - specialize (IH r1' k v eq_refl Httl Hnd Hin). destruct (EXEC_all r1' _). exact IH.
Qed.

(** X10: what [mset] stored, [mget] reads back.  When the server answers,
    the TTL is at least one second and the keys of the batch are distinct,
    an [mget] of those keys before the TTL has elapsed answers, in order,
    the decoded stored text of every entry. *)
Theorem mget_reads_back_mset
    (c : Cache) (r : Server) (entries : list (string * json)) (ttl_arg : option Z) (d : Z) :
  up r = true -> 1 <= ttlSeconds c ttl_arg ->
  NoDup (List.map fst entries) ->
  0 <= d <= ttlSeconds c ttl_arg * 1000 ->
  let w := snd (mset entries ttl_arg (c, r)) in
  fst (mget (List.map fst entries) (fst w, advance d (snd w))) =
    Returns (List.map (fun entry => answer_of (serialize (snd entry))) entries).
Proof.
  intros Hup Httl Hnd Hd w.
  assert (Hc : config (fst w) = config c) by apply mset_config.
  assert (Hw : snd w = snd (EXEC_all r (queued c entries ttl_arg))).
  { subst w. rewrite mset_up by done. reflexivity. }
  destruct (EXEC_all_queued c r entries ttl_arg Hup) as (Hup' & Hnow' & _ & _).
  cbn zeta in *. rewrite <- Hw in Hup', Hnow'.
  rewrite mget_up by (cbn; exact Hup'). cbn [fst]. f_equal.
  rewrite List.map_map. apply List.map_ext_in. intros [k v] Hin. cbn [fst snd].
  unfold read, answer_of. f_equal.
  rewrite (getKey_same_config c) by exact Hc.
  unfold live. cbn [advance db now]. rewrite Hw.
  rewrite (EXEC_all_lookup c ttl_arg entries r k v Hup Httl Hnd)
    by (apply list_elem_of_In; exact Hin).
  rewrite <- Hw, Hnow'. cbn.
  destruct (Z.leb_spec (now r + d) (now r + ttlSeconds c ttl_arg * 1000)); [reflexivity | lia].
Qed.

Lemma mget_reads_back_mset_witness :
  let w := snd (mset [("a", JNum 1); ("b", JStr "x"); ("c", JNull)] (Some 2000) (fresh, idle)) in
  fst (mget ["a"; "b"; "c"] (fst w, advance 1500 (snd w))) =
    Returns [JNum 1; JStr "x"; JNull].
Proof.
  intros w.
  etransitivity;
    [exact (mget_reads_back_mset fresh idle [("a", JNum 1); ("b", JStr "x"); ("c", JNull)]
              (Some 2000) 1500 eq_refl ltac:(vm_compute; discriminate)
              ltac:(repeat constructor; set_solver) ltac:(vm_compute; split; discriminate))
    | vm_compute; reflexivity].
Defined.

(** ** Reads *)

(** X12: [has(key)] is a pure existence check: it never throws, changes
    neither the server nor any counter, and answers [true] exactly when the
    server answers and holds the key unexpired; so whenever [get(key)] would
    answer a value other than [null], [has(key)] answers [true]. *)
Theorem has_is_a_pure_existence_check (c : Cache) (r : Server) (key : string) :
  exists c',
    has key (c, r) = (Returns (up r && visible r (getKey c key)), (c', r)) /\
    stats c' = stats c /\ config c' = config c /\
    (fst (get key (c, r)) <> Returns JNull ->
     fst (has key (c, r)) = Returns true).
Proof.
  destruct (up r) eqn:Hup.
  - rewrite has_up, get_up by done. eexists. split; [reflexivity|]. repeat split.
    unfold visible, truthy. destruct (live r (getKey c key)) as [[|a text]|]; cbn; done.
  - rewrite has_down, get_down by done. eexists. split; [reflexivity|]. repeat split.
    cbn. done.
Qed.

(** X13: reading never writes.  [get], [has], [mget], [getStats] and
    [clear] return with the server exactly as it was: its keyspace, its
    clock and its reachability. *)
Theorem reads_leave_the_server_untouched (c : Cache) (r : Server) :
  (forall key, snd (snd (get key (c, r))) = r) /\
  (forall key, snd (snd (has key (c, r))) = r) /\
  (forall keys, snd (snd (mget keys (c, r))) = r) /\
  snd (snd (getStats (c, r))) = r /\
  snd (snd (clear (c, r))) = r.
Proof.
  destruct (up r) eqn:Hup; repeat split; intros.
  - rewrite get_up by done. case_match; reflexivity.
  - rewrite has_up by done. reflexivity.
  - rewrite mget_up by done. reflexivity.
  - rewrite getStats_up by done. reflexivity.
  - rewrite clear_always. reflexivity.
  - rewrite get_down by done. reflexivity.
  - rewrite has_down by done. reflexivity.
  - rewrite mget_down by done. reflexivity.
  - rewrite getStats_down by done. reflexivity.
  - rewrite clear_always. reflexivity.
Qed.

(** ** Counters and the connection flag along histories *)

Lemma step_stats (x : call) (w : World) :
  let s := stats (fst w) in
  let s' := stats (fst (step x w)) in
  (enableStats (config (fst w)) = false -> s' = s) /\
  hits s <= hits s' /\ misses s <= misses s' /\ sets s <= sets s' /\
  deletes s <= deletes s' /\
  (enableStats (config (fst w)) = true ->
   deletes s' = deletes s + deletions [x] w) /\
  connected (fst (step x w)) =
    connected (fst w) || (contacts_server (fst w) x && up (snd w)).
Proof.
  destruct w as [c r]. cbn [fst snd].
  destruct x; cbn [step deletions fst snd contacts_server andb];
    rewrite ?orb_false_r; destruct (up r) eqn:Hup.
  - rewrite get_up by done. unfold bump, linked. cbn.
    destruct (truthy _), (enableStats (config c)); cbn;
      rewrite ?orb_true_r; repeat split; auto; try discriminate; lia.
  - rewrite get_down by done. unfold bump.
    destruct (enableStats (config c)); cbn;
      rewrite ?orb_false_r; repeat split; auto; try discriminate; lia.
  - rewrite set_up by done. unfold bump, linked. cbn.
    destruct (_ <=? 0), (enableStats (config c)); cbn;
      rewrite ?orb_true_r; repeat split; auto; try discriminate; lia.
  - rewrite set_down by done. cbn. rewrite orb_false_r. repeat split; auto; lia.
  - rewrite delete_up by done. unfold bump, linked. cbn.
    destruct (enableStats (config c)); cbn;
      rewrite ?orb_true_r; repeat split; auto; try discriminate; lia.
  - rewrite delete_down by done. cbn. rewrite orb_false_r. repeat split; auto; lia.
  - rewrite has_up by done. cbn. rewrite orb_true_r. repeat split; auto; lia.
  - rewrite has_down by done. cbn. rewrite orb_false_r. repeat split; auto; lia.
  - rewrite mget_up by done. cbn. rewrite orb_true_r. repeat split; auto; lia.
  - rewrite mget_down by done. cbn. rewrite orb_false_r. repeat split; auto; lia.
  - rewrite mset_up by done. unfold bump, linked. cbn.
    destruct (fst (EXEC_all _ _)), (enableStats (config c)); cbn;
      rewrite ?orb_true_r; repeat split; auto; try discriminate; lia.
  - rewrite mset_down by done. cbn. rewrite orb_false_r. repeat split; auto; lia.
  - rewrite clear_always. unfold bump.
    destruct (enableStats (config c)); cbn; repeat split; auto; try discriminate; lia.
  - rewrite clear_always. unfold bump.
    destruct (enableStats (config c)); cbn; repeat split; auto; try discriminate; lia.
  - rewrite getStats_up by done. cbn.
    destruct (enableStats (config c)); cbn;
      rewrite ?orb_true_r, ?orb_false_r; repeat split; auto; try discriminate; lia.
  - rewrite getStats_down by done. cbn. rewrite andb_false_r, orb_false_r.
    repeat split; auto; lia.
  - cbn. repeat split; auto; lia.
  - cbn. repeat split; auto; lia.
  - cbn. repeat split; auto; lia.
  - cbn. repeat split; auto; lia.
Qed.

(** X14: the counters only accumulate.  Along any history of calls, of time
    passing and of the server going away and coming back, [hits], [misses],
    [sets] and [deletes] never decrease. *)
Theorem counters_never_decrease (xs : list call) (w : World) :
  let s := stats (fst w) in
  let s' := stats (fst (run xs w)) in
  hits s <= hits s' /\ misses s <= misses s' /\ sets s <= sets s' /\
  deletes s <= deletes s'.
Proof.
  revert w. induction xs as [|x xs IH]; intros w; cbn zeta.
  - cbn. lia.
  - cbn [run]. specialize (IH (step x w)).
    destruct (step_stats x w) as (_ & Hh & Hm & Hs & Hd & _). cbn zeta in *. lia.
Qed.

(** X15: with [enableStats] off no counter ever moves: along any history
    the statistics stay exactly as they were, [size] and [hitRate]
    included, and [getStats] does not even ask the server. *)
Theorem disabled_stats_never_move (xs : list call) (w : World) :
  enableStats (config (fst w)) = false ->
  stats (fst (run xs w)) = stats (fst w) /\
  getStats (run xs w) = (Returns (stats (fst w)), run xs w).
Proof.
  intros Hoff.
  assert (Hrun : stats (fst (run xs w)) = stats (fst w)).
  { revert w Hoff. induction xs as [|x xs IH]; intros w Hoff; [reflexivity|].
    cbn [run]. rewrite IH by (rewrite step_config; exact Hoff).
    exact (proj1 (step_stats x w) Hoff). }
  split; [exact Hrun|].
  assert (Hoff' : enableStats (config (fst (run xs w))) = false)
    by (rewrite run_config; exact Hoff).
  rewrite <- Hrun. destruct (run xs w) as [c' r']. cbn [fst] in *.
  destruct (up r') eqn:Hup.
  - rewrite getStats_up by done. cbn zeta. rewrite Hoff'. reflexivity.
  - rewrite getStats_down by done. reflexivity.
Qed.

Lemma disabled_stats_never_move_witness :
  let quiet := constructor (mkCacheConfig None None (Some false) None None) in
  let xs := [Set_ "a" (JNum 1) None; Get "a"; Get "b"; Delete "a"; GetStats] in
  stats (fst (run xs (quiet, idle))) = mkStats 0 0 0 0 0 0%Q.
Proof.
  intros quiet xs.
  exact (proj1 (disabled_stats_never_move xs (quiet, idle) eq_refl)).
Defined.

(** Along a history in which no call is rejected, every [delete] call is
    answered. *)
Lemma deletions_when_never_rejected (xs : list call) (w : World) :
  up (snd w) = true -> never_rejected xs = true ->
  deletions xs w = delete_calls xs.
Proof.
  unfold delete_calls, never_rejected.
  revert w. induction xs as [|x xs IH]; intros w Hup Hxs; [reflexivity|].
  cbn [forallb] in Hxs. apply andb_true_iff in Hxs as [Hx Hxs].
  assert (Hup' : up (snd (step x w)) = true).
  { destruct w as [c r]; cbn [fst snd] in *.
    destruct (is_method x) eqn:Hm.
    - rewrite (proj2 (methods_keep_the_clock x c r Hm)). exact Hup.
    - destruct x as [| | | | | | | | |b]; try discriminate Hm; cbn; [exact Hup|].
      destruct b; [reflexivity | discriminate Hx]. }
  cbn [deletions List.filter]. rewrite (IH (step x w) Hup' Hxs), Hup.
  destruct x; cbn [length]; lia.
Qed.

(** X16: with stats enabled, [deletes] counts the [delete] calls, whether
    or not their key existed: along any history in which the client's calls
    are answered throughout, it grows by exactly the number of [delete]
    calls made. *)
Theorem deletes_count_the_calls_that_were_answered (xs : list call) (w : World) :
  enableStats (config (fst w)) = true ->
  up (snd w) = true ->
  never_rejected xs = true ->
  deletes (stats (fst (run xs w))) = deletes (stats (fst w)) + delete_calls xs.
Proof.
  intros Hon Hup Hxs. rewrite <- (deletions_when_never_rejected xs w Hup Hxs).
  clear Hup Hxs. revert w Hon. induction xs as [|x xs IH]; intros w Hon.
  - cbn. lia.
  - cbn [run]. rewrite IH by (rewrite step_config; exact Hon).
    destruct (step_stats x w) as (_ & _ & _ & _ & _ & Hd & _).
    rewrite (Hd Hon). cbn [deletions]. lia.
Qed.

Lemma deletes_count_the_calls_that_were_answered_witness :
  let xs := [Delete "a"; Set_ "b" (JNum 1) None; Advance 1000; Delete "a"; Delete "b";
             Get "b"] in
  deletes (stats (fst (run xs (fresh, idle)))) = 3.
Proof.
  intros xs.
  exact (deletes_count_the_calls_that_were_answered xs (fresh, idle)
           eq_refl eq_refl eq_refl).
Defined.

(** X17: the connection is opened lazily and the flag is never taken back.
    A call that goes to the server ([clear] does not, nor [getStats] with
    stats off) sets [connected] when the server answers and leaves it as it
    was when not; so along any history a cache that is connected stays
    flagged connected, also while the server is away, and a cache that never
    reached the server stays unconnected. *)
Theorem connection_is_lazy_and_sticky (xs : list call) (w : World) :
  (forall x,
     connected (fst (step x w)) =
       connected (fst w) || (contacts_server (fst w) x && up (snd w))) /\
  (connected (fst w) = true -> connected (fst (run xs w)) = true) /\
  (connected (fst w) = false ->
   forallb (fun x => match x with Reachable true => false | _ => true end) xs = true ->
   up (snd w) = false ->
   connected (fst (run xs w)) = false).
Proof.
  split; [intros x; apply (step_stats x w)|]. split.
  - revert w. induction xs as [|x xs IH]; intros w Hc; [exact Hc|].
    cbn [run]. apply IH. rewrite (proj2 (proj2 (proj2 (proj2 (proj2 (proj2 (step_stats x w))))))).
    rewrite Hc. reflexivity.
  - revert w. induction xs as [|x xs IH]; intros w Hc Hxs Hup; [exact Hc|].
    cbn in Hxs. apply andb_true_iff in Hxs as [Hx Hxs].
    cbn [run]. apply IH; [|exact Hxs|].
    + rewrite (proj2 (proj2 (proj2 (proj2 (proj2 (proj2 (step_stats x w))))))).
      rewrite Hc, Hup, andb_false_r. reflexivity.
    + destruct w as [c r]; cbn [fst snd] in *.
      destruct (is_method x) eqn:Hm.
      * rewrite (proj2 (methods_keep_the_clock x c r Hm)). exact Hup.
      * destruct x as [| | | | | | | | |b]; try discriminate Hm; cbn; [exact Hup|].
        destruct b; [discriminate Hx | reflexivity].
Qed.

Lemma connection_is_lazy_and_sticky_witness :
  connected fresh = false /\
  connected (fst (run [Get "a"] (fresh, idle))) = true /\
  connected (fst (run [Get "a"; Reachable false; Get "a"; Set_ "a" JNull None] (fresh, idle))) = true /\
  connected (fst (run [Get "a"; Clear; GetStats] (fresh, reachable false idle))) = false.
Proof.
  split; [reflexivity|]. split; [vm_compute; reflexivity|]. split.
  - exact (proj1 (proj2 (connection_is_lazy_and_sticky
                           [Reachable false; Get "a"; Set_ "a" JNull None]
                           (run [Get "a"] (fresh, idle)))) eq_refl).
  - exact (proj2 (proj2 (connection_is_lazy_and_sticky [Get "a"; Clear; GetStats]
                           (fresh, reachable false idle))) eq_refl eq_refl eq_refl).
Defined.

(** ** Witnesses for the properties of prefixes and round trips *)

Lemma other_deployment_reads_the_same_witness :
  let voice := constructor (mkCacheConfig None None None None (Some "voice:")) in
  let w := snd (RedisCache.set "user:42" (JNum 1) None (voice, idle)) in
  fst (get "user:42" (voice, snd (step (Delete "user:42") (fresh, snd w)))) =
    Returns (JNum 1).
Proof.
  intros voice w.
  etransitivity;
    [exact (proj1 (other_deployment_reads_the_same (Delete "user:42") fresh voice (snd w)
                     "user:42" eq_refl eq_refl eq_refl))
    | vm_compute; reflexivity].
Defined.

Lemma get_returns_what_decodes_witness :
  let value := JArr [JNum 1; JObj [("level", JNum 3)]; JStr "x"] in
  let w := snd (RedisCache.set "k" value (Some 3000) (fresh, idle)) in
  fst (get "k" (fst w, advance 2500 (snd w))) = Returns value.
Proof.
  intros value w.
  exact (get_returns_what_decodes fresh idle "k" value (Some 3000) 2500 eq_refl
           ltac:(vm_compute; discriminate) ltac:(lia) ltac:(vm_compute; discriminate)
           ltac:(vm_compute; discriminate) ltac:(vm_compute; reflexivity)).
Defined.

(** ** Strings and [null] *)

(** X22: what a stored string is read back as.  After [set(key, s)] with a
    string [s] was stored, a [get(key)] before the TTL has elapsed answers
    absent when [s] is empty, the parsed value when [s] is JSON text, and
    [s] itself otherwise. *)
Theorem string_is_read_back_parsed
    (c : Cache) (r : Server) (key s : string) (ttl_arg : option Z) (d : Z) :
  up r = true -> 1 <= ttlSeconds c ttl_arg -> 0 <= d < ttlSeconds c ttl_arg * 1000 ->
  let w := snd (RedisCache.set key (JStr s) ttl_arg (c, r)) in
  fst (get key (fst w, advance d (snd w))) =
    Returns (match s with
             | EmptyString => JNull
             | String _ _ =>
                 match JSON.parse s with
                 | Some v => v
                 | None => JStr s
                 end
             end).
Proof.
  intros Hup Httl Hd. cbn zeta. rewrite get_after_set by (done || lia).
  destruct (Z.leb_spec d (ttlSeconds c ttl_arg * 1000)); [|lia].
  destruct s; reflexivity.
Qed.

Lemma string_is_read_back_parsed_witness :
  let w1 := snd (RedisCache.set "a" (JStr "hello") None (fresh, idle)) in
  let w2 := snd (RedisCache.set "b" (JStr "[1,2]") None (fresh, idle)) in
  fst (get "a" (fst w1, advance 10 (snd w1))) = Returns (JStr "hello") /\
  fst (get "b" (fst w2, advance 10 (snd w2))) = Returns (JArr [JNum 1; JNum 2]).
Proof.
  intros w1 w2. split.
  - etransitivity;
      [exact (string_is_read_back_parsed fresh idle "a" "hello" None 10 eq_refl
                ltac:(vm_compute; discriminate) ltac:(vm_compute; split; [discriminate | reflexivity]))
      | vm_compute; reflexivity].
  - etransitivity;
      [exact (string_is_read_back_parsed fresh idle "b" "[1,2]" None 10 eq_refl
                ltac:(vm_compute; discriminate) ltac:(vm_compute; split; [discriminate | reflexivity]))
      | vm_compute; reflexivity].
Defined.

(** X23: a stored [null] is a hit that reads as absent.  After
    [set(key, null)] was stored, and until the TTL has elapsed, [get(key)]
    answers [null], which is also its answer for a missing key, yet with
    stats enabled it counts a hit and no miss, and [has(key)] answers
    [true]. *)
Theorem stored_null_is_a_hit_that_reads_as_absent
    (c : Cache) (r : Server) (key : string) (ttl_arg : option Z) (d : Z) :
  up r = true -> 1 <= ttlSeconds c ttl_arg -> 0 <= d < ttlSeconds c ttl_arg * 1000 ->
  enableStats (config c) = true ->
  let w := snd (RedisCache.set key JNull ttl_arg (c, r)) in
  let after := get key (fst w, advance d (snd w)) in
  fst after = Returns JNull /\
  hits (stats (fst (snd after))) = hits (stats (fst w)) + 1 /\
  misses (stats (fst (snd after))) = misses (stats (fst w)) /\
  fst (has key (fst w, advance d (snd w))) = Returns true.
Proof.
  intros Hup Httl Hd Hon w after.
  assert (Hc : config (fst w) = config c) by apply set_config.
  assert (Hw : snd w = mkServer
                  (<[getKey c key := mkEntry "null" (now r + ttlSeconds c ttl_arg * 1000)]> (db r))
                  (now r) (up r)).
  { subst w. rewrite set_server, Hup.
    destruct (Z.leb_spec 1 (ttlSeconds c ttl_arg)); [reflexivity | lia]. }
  assert (Hlive : live (advance d (snd w)) (getKey (fst w) key) = Some "null").
  { rewrite (getKey_same_config c) by exact Hc. rewrite Hw, live_after_SETEX by lia.
    destruct (Z.leb_spec d (ttlSeconds c ttl_arg * 1000)); [reflexivity | lia]. }
  assert (Hup' : up (advance d (snd w)) = true) by (rewrite Hw; exact Hup).
  subst after. rewrite get_up, has_up by exact Hup'.
  unfold visible. rewrite Hlive. cbn [truthy]. unfold truthy, bump, linked.
  cbn [config set_connected]. rewrite Hc, Hon. cbn. auto.
Qed.

Lemma stored_null_is_a_hit_that_reads_as_absent_witness :
  let w := snd (RedisCache.set "k" JNull None (fresh, idle)) in
  fst (get "k" (fst w, advance 10 (snd w))) = Returns JNull /\
  hits (stats (fst (snd (get "k" (fst w, advance 10 (snd w)))))) = 1.
Proof.
  intros w.
  destruct (stored_null_is_a_hit_that_reads_as_absent fresh idle "k" None 10 eq_refl
              ltac:(vm_compute; discriminate)
              ltac:(vm_compute; split; [discriminate | reflexivity]) eq_refl)
    as (H1 & H2 & _).
  split; [exact H1 | exact H2].
Defined.

(** X25: [has] sees a key from the moment it is stored until it expires,
    whatever the value, the empty string and [null] included: after a
    stored [set(key, value, ttl)], [has(key)] answers [true] strictly
    before the TTL (in whole seconds) has elapsed and [false] strictly
    after. *)
Theorem has_follows_the_expiry
    (c : Cache) (r : Server) (key : string) (v : json) (ttl_arg : option Z) (d : Z) :
  up r = true -> 1 <= ttlSeconds c ttl_arg -> 0 <= d ->
  let w := snd (RedisCache.set key v ttl_arg (c, r)) in
  (d < ttlSeconds c ttl_arg * 1000 ->
   fst (has key (fst w, advance d (snd w))) = Returns true) /\
  (ttlSeconds c ttl_arg * 1000 < d ->
   fst (has key (fst w, advance d (snd w))) = Returns false).
Proof.
  intros Hup Httl Hd w.
  assert (Hc : config (fst w) = config c) by apply set_config.
  assert (Hw : snd w = mkServer
                  (<[getKey c key := mkEntry (serialize v) (now r + ttlSeconds c ttl_arg * 1000)]>
                     (db r))
                  (now r) (up r)).
  { subst w. rewrite set_server, Hup.
    destruct (Z.leb_spec 1 (ttlSeconds c ttl_arg)); [reflexivity | lia]. }
  rewrite has_answer. unfold visible.
  rewrite (getKey_same_config c) by exact Hc. rewrite Hw, live_after_SETEX by lia.
  cbn [advance up]. rewrite Hup.
  destruct (Z.leb_spec d (ttlSeconds c ttl_arg * 1000)); split; intros; (reflexivity || lia).
Qed.

Lemma has_follows_the_expiry_witness :
  let w := snd (RedisCache.set "k" (JStr EmptyString) (Some 2000) (fresh, idle)) in
  fst (has "k" (fst w, advance 1999 (snd w))) = Returns true /\
  fst (has "k" (fst w, advance 2001 (snd w))) = Returns false.
Proof.
  intros w. split.
  - exact (proj1 (has_follows_the_expiry fresh idle "k" (JStr EmptyString) (Some 2000) 1999
                    eq_refl ltac:(vm_compute; discriminate) ltac:(lia)) eq_refl).
  - exact (proj2 (has_follows_the_expiry fresh idle "k" (JStr EmptyString) (Some 2000) 2001
                    eq_refl ltac:(vm_compute; discriminate) ltac:(lia)) eq_refl).
Defined.

(** ** [close] *)

Lemma close_cases (socket_open : bool) (c : Cache) (r : Server) :
  close socket_open (c, r) =
    if connected c then
      if up r || socket_open
      then (Returns tt, (set_connected false c, r))
      else (Throws "The client is closed", (c, r))
    else (Returns tt, (c, r)).
Proof.
  destruct c as [cfg st conn], r as [d n u].
  destruct conn, u, socket_open; reflexivity.
Qed.

(** X18: [close] touches the connection flag only.  It never changes the
    server, the counters or the configuration.  On a cache that is not
    connected it does nothing; on a connected one it quits and clears the
    flag, and when quitting raises it disconnects and clears the flag.  When
    it has returned, the next [get] answers every key as before and
    reconnects if the server can be reached.  It throws only when quitting
    raises and the disconnect in its handler raises too; the flag then stays
    set. *)
Theorem close_drops_the_connection_only (socket_open : bool) (c : Cache) (r : Server) :
  snd (snd (close socket_open (c, r))) = r /\
  stats (fst (snd (close socket_open (c, r)))) = stats c /\
  config (fst (snd (close socket_open (c, r)))) = config c /\
  (connected c = false -> close socket_open (c, r) = (Returns tt, (c, r))) /\
  (up r = true \/ socket_open = true ->
   exists c',
     close socket_open (c, r) = (Returns tt, (c', r)) /\
     connected c' = false /\
     forall key,
       fst (get key (c', r)) = fst (get key (c, r)) /\
       connected (fst (snd (get key (c', r)))) = up r) /\
  (connected c = true -> up r = false -> socket_open = false ->
   exists error, close socket_open (c, r) = (Throws error, (c, r))).
Proof.
  rewrite close_cases.
  split; [repeat case_match; reflexivity|].
  split; [repeat case_match; reflexivity|].
  split; [repeat case_match; reflexivity|].
  split; [intros ->; reflexivity|].
  split.
  - intros Hor.
    assert (Hor' : up r || socket_open = true)
      by (destruct Hor as [-> | ->]; rewrite ?orb_true_r; reflexivity).
    rewrite Hor'.
    exists (if connected c then set_connected false c else c).
    split; [destruct (connected c); reflexivity|].
    split; [destruct c as [cfg st []]; reflexivity|].
    intros key. split.
    + rewrite !get_answer. destruct (connected c); reflexivity.
    + pose proof (proj2 (proj2 (proj2 (proj2 (proj2 (proj2
                   (step_stats (Get key)
                      (if connected c then set_connected false c else c, r)))))))) as H.
      cbn [step fst snd contacts_server andb] in H. rewrite H.
      destruct c as [cfg st []]; reflexivity.
  - intros -> -> ->. eexists. reflexivity.
Qed.

Lemma close_drops_the_connection_only_witness :
  let w := snd (RedisCache.set "k" (JNum 1) None (fresh, idle)) in
  connected (fst w) = true /\
  exists c',
    close true w = (Returns tt, (c', snd w)) /\
    connected c' = false /\
    fst (get "k" (c', snd w)) = Returns (JNum 1).
Proof.
  intros w. split; [reflexivity|].
  destruct (proj1 (proj2 (proj2 (proj2 (proj2
              (close_drops_the_connection_only true (fst w) (snd w))))))
              (or_introl eq_refl)) as (c' & Hclose & Hconn & Hget).
  exists c'. split; [exact Hclose|]. split; [exact Hconn|].
  rewrite (proj1 (Hget "k")). vm_compute. reflexivity.
Defined.

(** ** Numbers and booleans *)

Lemma digit_char (d : N) : (d < 10)%N -> code (pretty_N_char d) = 48 + Z.of_N d.
Proof.
  intros H.
  assert (Hc : (d = 0 \/ d = 1 \/ d = 2 \/ d = 3 \/ d = 4 \/ d = 5 \/ d = 6 \/ d = 7 \/
                d = 8 \/ d = 9)%N) by lia.
  destruct Hc as [->|[->|[->|[->|[->|[->|[->|[->|[->| ->]]]]]]]]]; reflexivity.
Qed.

Lemma digits_step (acc : Z) (cnt : nat) (c : ascii) (s : string) :
  48 <= code c <= 57 ->
  digits acc cnt (String c s) = digits (10 * acc + (code c - 48)) (S cnt) s.
Proof.
  intros Hc. cbn [digits]. unfold is_digit.
  destruct (Z.leb_spec 48 (code c)), (Z.leb_spec (code c) 57); try lia. reflexivity.
Qed.

(** Reading the digits that [pretty] wrote gives the number back. *)
Lemma digits_pretty_go (x : N) : forall s,
  exists (k : nat) (p : Z),
    (forall acc cnt,
       digits acc cnt (pretty_N_go x s) = digits (acc * p + Z.of_N x) (cnt + k)%nat s) /\
    ((0 < x)%N -> (0 < k)%nat).
Proof.
  induction (N.lt_wf_0 x) as [x _ IH]. intros s.
  destruct (N.eq_dec x 0%N) as [->|Hx].
  - exists 0%nat, 1. split; [|lia]. intros acc cnt. rewrite pretty_N_go_0.
    f_equal; lia.
  - rewrite pretty_N_go_step by lia.
    destruct (IH (x `div` 10)%N ltac:(apply N.div_lt; lia)
                 (String (pretty_N_char (x `mod` 10)%N) s)) as (k & p & Hgo & _).
    exists (S k), (10 * p). split; [|lia]. intros acc cnt.
    assert (Hmod : (x `mod` 10 < 10)%N) by (apply N.mod_lt; lia).
    pose proof (N.div_mod' x 10%N) as Hdm.
    pose proof (digit_char _ Hmod) as Hchar.
    revert Hgo Hdm Hchar Hmod.
    generalize (x `mod` 10)%N as lo. generalize (x `div` 10)%N as hi.
    intros hi lo Hgo Hdm Hchar Hmod.
    rewrite Hgo, digits_step by lia. rewrite Hchar. f_equal; lia.
Qed.

Lemma pretty_go_head (x : N) : forall s,
  (0 < x)%N ->
  exists c rest, pretty_N_go x s = String c rest /\ 49 <= code c <= 57.
Proof.
  induction (N.lt_wf_0 x) as [x _ IH]. intros s Hx.
  rewrite pretty_N_go_step by exact Hx.
  destruct (N.eq_dec (x `div` 10)%N 0%N) as [Hd|Hd].
  - rewrite Hd, pretty_N_go_0. do 2 eexists. split; [reflexivity|].
    assert (Hmod : (x `mod` 10 < 10)%N) by (apply N.mod_lt; lia).
    rewrite digit_char by exact Hmod.
    pose proof (N.div_mod' x 10%N) as Hdm.
    revert Hd Hdm Hmod.
    generalize (x `mod` 10)%N as lo. generalize (x `div` 10)%N as hi.
    intros hi lo Hd Hdm Hmod. lia.
  - apply IH; [apply N.div_lt; lia | apply N.neq_0_lt_0; exact Hd].
Qed.

Lemma parse_number_digits (neg : bool) (x : N) :
  (0 < x)%N ->
  parse_number ((if neg then "-" else EmptyString) +:+ pretty_N_go x EmptyString) =
    Some (JNum (if neg then - Z.of_N x else Z.of_N x), EmptyString).
Proof.
  intros Hx.
  destruct (pretty_go_head x EmptyString Hx) as (c & rest & Hhead & Hc).
  destruct (digits_pretty_go x EmptyString) as (k & p & Hgo & Hk).
  specialize (Hgo 0 0%nat). specialize (Hk Hx).
  assert (Hs1 : starts 45 (pretty_N_go x EmptyString) = false).
  { rewrite Hhead. cbn. apply Z.eqb_neq. lia. }
  assert (H48 : starts 48 (pretty_N_go x EmptyString) = false).
  { rewrite Hhead. cbn. apply Z.eqb_neq. lia. }
  cbn [digits] in Hgo. replace (0 * p + Z.of_N x) with (Z.of_N x) in Hgo by lia.
  unfold parse_number. destruct neg.
  - change ("-" +:+ pretty_N_go x EmptyString)
      with (String "-" (pretty_N_go x EmptyString)).
    cbn [starts tail]. change (code "-" =? 45) with true. cbn iota.
    rewrite Hgo, H48. cbn.
    destruct k; [lia|]. reflexivity.
  - change (EmptyString +:+ pretty_N_go x EmptyString) with (pretty_N_go x EmptyString).
    rewrite Hs1, Hgo, H48. cbn.
    destruct k; [lia|]. reflexivity.
Qed.

Lemma parse_of_number_text (s : string) (v : json) (c : ascii) (rest : string) :
  s = String c rest ->
  code c = 45 \/ 48 <= code c <= 57 ->
  parse_number s = Some (v, EmptyString) ->
  JSON.parse s = Some v.
Proof.
  intros -> Hc Hnum. unfold JSON.parse.
  replace (2 * String.length (String c rest) + 2)%nat
    with (S (2 * String.length (String c rest) + 1)) by lia.
  cbn [parse_value].
  assert (Hws : is_ws c = false).
  { unfold is_ws. repeat (apply orb_false_iff; split); apply Z.eqb_neq; lia. }
  cbn [skip_ws]. rewrite Hws.
  destruct (Z.eqb_spec (code c) 123); [lia|].
  destruct (Z.eqb_spec (code c) 91); [lia|].
  destruct (Z.eqb_spec (code c) 34); [lia|].
  replace ((code c =? 45) || is_digit c) with true.
  - rewrite Hnum. reflexivity.
  - symmetry. unfold is_digit. destruct Hc as [->|Hc]; [reflexivity|].
    destruct (Z.leb_spec 48 (code c)), (Z.leb_spec (code c) 57); try lia;
      apply orb_true_r.
Qed.

(** Every integer is parsed back from the text [JSON.stringify] gives it. *)
Lemma parse_stringify_number (z : Z) : JSON.parse (JSON.stringify (JNum z)) = Some (JNum z).
Proof.
  cbn [JSON.stringify]. destruct z as [|q|q]; [reflexivity| |].
  - change (pretty (Z.pos q)) with (EmptyString +:+ pretty_N_go (N.pos q) EmptyString).
    destruct (pretty_go_head (N.pos q) EmptyString ltac:(lia)) as (c & rest & Hhead & Hc).
    eapply (parse_of_number_text _ _ c rest).
    + exact Hhead.
    + right. lia.
    + exact (parse_number_digits false (N.pos q) ltac:(lia)).
  - change (pretty (Z.neg q)) with ("-" +:+ pretty_N_go (N.pos q) EmptyString).
    eapply (parse_of_number_text _ _ "-"%char (pretty_N_go (N.pos q) EmptyString)).
    + reflexivity.
    + left. reflexivity.
    + exact (parse_number_digits true (N.pos q) ltac:(lia)).
Qed.

(** X26: numbers and booleans survive the round trip.  For every integer
    and for both booleans, when [set(key, value, ttl)] was stored, a
    [get(key)] before the TTL has elapsed answers the value that was
    written. *)
Theorem numbers_and_booleans_are_read_back
    (c : Cache) (r : Server) (key : string) (v : json) (ttl_arg : option Z) (d : Z) :
  (exists z, v = JNum z) \/ (exists b, v = JBool b) ->
  up r = true -> 1 <= ttlSeconds c ttl_arg -> 0 <= d < ttlSeconds c ttl_arg * 1000 ->
  let w := snd (RedisCache.set key v ttl_arg (c, r)) in
  fst (get key (fst w, advance d (snd w))) = Returns v.
Proof.
  intros Hv Hup Httl Hd. cbn zeta. rewrite get_after_set by (done || lia).
  destruct (Z.leb_spec d (ttlSeconds c ttl_arg * 1000)); [|lia]. f_equal.
  destruct Hv as [[z ->]|[[|] ->]]; try reflexivity.
  pose proof (parse_stringify_number z) as Hp.
  unfold serialize, decode. cbn [JSON.stringify] in *.
  destruct (pretty z) eqn:Htext; [discriminate Hp|].
  unfold truthy. rewrite Hp. reflexivity.
Qed.

Lemma numbers_and_booleans_are_read_back_witness :
  let w := snd (RedisCache.set "xp" (JNum (-1250)) (Some 5000) (fresh, idle)) in
  fst (get "xp" (fst w, advance 4999 (snd w))) = Returns (JNum (-1250)).
Proof.
  intros w.
  exact (numbers_and_booleans_are_read_back fresh idle "xp" (JNum (-1250)) (Some 5000) 4999
           (or_introl (ex_intro _ (-1250) eq_refl)) eq_refl
           ltac:(vm_compute; discriminate)
           ltac:(vm_compute; split; [discriminate | reflexivity])).
Defined.

End Networked.

(** * Properties of the in-process backend *)

Module InProcess.

Import MemoryCache.
Local Open Scope list_scope.

Lemma lookup_absent (k : string) (es : list CacheEntry) :
  k ∉ List.map key es -> lookup k es = None.
Proof.
  unfold lookup. induction es as [|e es IH]; intros Hk; [reflexivity|].
  cbn in *. apply not_elem_of_cons in Hk as [Hne Hk].
  destruct (String.eqb_spec (key e) k); [congruence|]. apply IH, Hk.
Qed.

Lemma remove_absent (k : string) (es : list CacheEntry) :
  k ∉ List.map key es -> remove k es = es.
Proof.
  unfold remove. induction es as [|e es IH]; intros Hk; [reflexivity|].
  cbn in *. apply not_elem_of_cons in Hk as [Hne Hk].
  destruct (String.eqb_spec (key e) k); [congruence|]. cbn. f_equal. apply IH, Hk.
Qed.

Lemma keys_remove (k : string) (es : list CacheEntry) :
  List.map key (remove k es) = others k (List.map key es).
Proof.
  unfold remove, others. induction es as [|e es IH]; [reflexivity|].
  cbn. destruct (String.eqb (key e) k); cbn; congruence.
Qed.

Lemma others_absent (k : string) (ks : list string) : k ∉ ks -> others k ks = ks.
Proof.
  unfold others. induction ks as [|x ks IH]; intros Hk; [reflexivity|].
  cbn in *. apply not_elem_of_cons in Hk as [Hne Hk].
  destruct (String.eqb_spec x k); [congruence|]. cbn. f_equal. apply IH, Hk.
Qed.

Lemma others_excludes (k : string) (ks : list string) : k ∉ others k ks.
Proof.
  unfold others. induction ks as [|x ks IH]; [apply not_elem_of_nil|].
  cbn. destruct (String.eqb_spec x k); cbn; [exact IH|].
  apply not_elem_of_cons. split; [congruence | exact IH].
Qed.

Lemma others_subset (k x : string) (ks : list string) : x ∈ others k ks -> x ∈ ks.
Proof.
  unfold others. induction ks as [|y ks IH]; [done|].
  cbn. destruct (String.eqb y k); cbn; rewrite ?elem_of_cons; naive_solver.
Qed.

Lemma others_length (k : string) (ks : list string) :
  NoDup ks -> k ∈ ks -> S (length (others k ks)) = length ks.
Proof.
  induction ks as [|x ks IH]; intros Hnd Hin; [by apply elem_of_nil in Hin|].
  apply NoDup_cons in Hnd as [Hx Hnd]. unfold others. cbn.
  destruct (String.eqb_spec x k) as [->|Hne]; cbn.
  - f_equal. fold (others k ks). rewrite others_absent by exact Hx. reflexivity.
  - f_equal. apply IH; [exact Hnd|]. apply elem_of_cons in Hin as [?|?]; [congruence | assumption].
Qed.

Lemma lookup_entry_of now ttl0 v k ks :
  k ∈ ks -> lookup k (List.map (entry_of now ttl0 v) ks) = Some (entry_of now ttl0 v k).
Proof.
  unfold lookup. induction ks as [|x ks IH]; intros Hin; [by apply elem_of_nil in Hin|].
  cbn. destruct (String.eqb_spec x k) as [->|Hne]; [reflexivity|].
  apply IH. apply elem_of_cons in Hin as [?|?]; [congruence | assumption].
Qed.

Lemma keys_entry_of now ttl0 v ks :
  List.map key (List.map (entry_of now ttl0 v) ks) = ks.
Proof. rewrite List.map_map. cbn. apply List.map_id. Qed.

(** Keys that are new and fit are appended in the order of insertion. *)
Lemma set_all_fits now v ks : forall c,
  NoDup (keys c ++ ks) ->
  (maxSize c = 0 \/ length (entries c) + length ks <= maxSize c)%nat ->
  let c' := set_all now ks v c in
  entries c' = entries c ++ List.map (entry_of now (RedisCache.or_number None (ttl c)) v) ks /\
  maxSize c' = maxSize c /\ ttl c' = ttl c.
Proof.
  induction ks as [|k ks IH]; intros c Hnd Hfit.
  - cbn. rewrite app_nil_r. auto.
  - assert (Hk : k ∉ keys c).
    { intros Hin. apply NoDup_app in Hnd as (_ & Hdisj & _).
      apply (Hdisj k Hin). left. }
    assert (Hstep : entries (set now k v None c) =
                    entries c ++ [entry_of now (RedisCache.or_number None (ttl c)) v k]).
    { unfold set, would_exceed.
      replace ((0 <? maxSize c)%nat && (maxSize c <? length (entries c) + 1)%nat)
        with false.
      - cbn [andb entries]. rewrite remove_absent by exact Hk. reflexivity.
      - symmetry. apply andb_false_iff. cbn [length] in Hfit.
        destruct Hfit as [H0|Hle]; [left; apply Nat.ltb_ge; lia | right; apply Nat.ltb_ge; lia]. }
    cbn [set_all]. specialize (IH (set now k v None c)).
    destruct IH as (He & Hm & Ht).
    + unfold keys. rewrite Hstep, List.map_app. cbn. rewrite <- app_assoc. exact Hnd.
    + rewrite Hstep, length_app. cbn [length] in *. cbn. lia.
    + cbn zeta. rewrite He, Hm, Ht, Hstep, <- app_assoc. cbn. auto.
Qed.

Lemma tl_app {A} (l : list A) (x : A) : l <> [] -> List.tl (l ++ [x]) = List.tl l ++ [x].
Proof. destruct l; [done | reflexivity]. Qed.

Lemma keys_tl (es : list CacheEntry) : List.map key (List.tl es) = List.tl (List.map key es).
Proof. destruct es; reflexivity. Qed.

Lemma elem_of_tl {A} (x : A) (l : list A) : x ∈ List.tl l -> x ∈ l.
Proof. destruct l; [done | cbn; intros H; apply elem_of_cons; right; exact H]. Qed.

(** Inserting a new key into a full cache drops the head of the recency
    order and nothing else. *)
Lemma set_new_when_full now k v (c : Cache) :
  (0 < maxSize c)%nat -> length (entries c) = maxSize c -> k ∉ keys c ->
  keys (set now k v None c) = List.tl (keys c) ++ [k].
Proof.
  intros Hmax Hlen Hk. unfold set, would_exceed, is_new.
  rewrite lookup_absent by exact Hk.
  replace ((0 <? maxSize c)%nat && (maxSize c <? length (entries c) + 1)%nat) with true.
  - cbn [andb]. unfold evict_lru, keys. cbn [entries].
    rewrite remove_absent.
    + rewrite List.map_app, keys_tl. reflexivity.
    + rewrite keys_tl. intros Hin. apply Hk. apply elem_of_tl, Hin.
  - symmetry. apply andb_true_iff. split; apply Nat.ltb_lt; lia.
Qed.

(** C9, as the claim states it, fails for a cache of one entry: a [get]
    on its only key does not keep that key from being evicted by the next
    insertion. *)
Lemma get_does_not_protect_the_only_entry :
  let c := set 0 "a" (JNum 1) None (empty 300000 1) in
  fst (get 0 "a" c) = Some (JNum 1) /\
  keys (set 0 "b" (JNum 2) None (snd (get 0 "a" c))) = ["b"].
Proof. vm_compute. split; reflexivity. Qed.

(** C9, amended: a cache with maximum size [n >= 1] into which [n + 1]
    distinct new keys are inserted evicts exactly one entry, the first one
    inserted, which is the least recently accessed.  When [n >= 2], a
    [get] on any one of the [n] cached keys before the overflowing
    insertion is a hit and keeps that key: the entry evicted is then the
    least recently accessed among the other keys. *)
Theorem lru_evicts_the_least_recently_accessed
    (n : nat) (now ttl0 : Z) (v : json) (k0 : string) (ks : list string) (knew : string) :
  0 <= ttl0 ->
  n = S (length ks) ->
  NoDup (k0 :: ks ++ [knew]) ->
  let full := set_all now (k0 :: ks) v (empty ttl0 n) in
  keys full = k0 :: ks /\
  keys (set now knew v None full) = ks ++ [knew] /\
  (forall k,
     (2 <= n)%nat -> k ∈ k0 :: ks ->
     fst (get now k full) = Some v /\
     keys (set now knew v None (snd (get now k full))) =
       List.tl (others k (k0 :: ks)) ++ [k; knew] /\
     k ∈ keys (set now knew v None (snd (get now k full)))).
Proof.
  intros Httl Hn Hnd full.
  assert (Hnd' : NoDup (k0 :: ks) /\ knew ∉ k0 :: ks).
  { change (k0 :: ks ++ [knew]) with ((k0 :: ks) ++ [knew]) in Hnd.
    apply NoDup_app in Hnd as (H1 & H2 & _). split; [exact H1|].
    intros Hin. apply (H2 knew Hin). left. }
  destruct Hnd' as [Hks Hknew].
  destruct (set_all_fits now v (k0 :: ks) (empty ttl0 n)) as (He & Hm & Ht).
  { cbn. exact Hks. }
  { right. cbn. lia. }
  fold full in He, Hm, Ht. cbn [empty entries ttl maxSize app] in He, Hm, Ht.
  replace (RedisCache.or_number None ttl0) with ttl0 in He by reflexivity.
  clearbody full.
  assert (Hkeys : keys full = k0 :: ks).
  { unfold keys. rewrite He. apply keys_entry_of. }
  assert (Hlen : length (entries full) = n).
  { rewrite He, length_map. cbn. lia. }
  split; [exact Hkeys|]. split.
  - rewrite set_new_when_full, Hkeys; [reflexivity | lia | lia |].
    rewrite Hkeys. exact Hknew.
  - intros k Hn2 Hk.
    assert (Hget : get now k full =
              (Some v,
               mkCache (ttl full) (maxSize full)
                 (remove k (entries full) ++ [entry_of now ttl0 v k])
                 (hits full + 1) (misses full) (sets full))).
    { unfold get. rewrite He at 1. rewrite lookup_entry_of by exact Hk.
      cbn [expiresAt entry_of serializedValue].
      destruct (Z.ltb_spec (now + ttl0) now); [lia | reflexivity]. }
    rewrite Hget. cbn [fst snd]. split; [reflexivity|].
    set (c1 := mkCache _ _ _ _ _ _).
    assert (Hkeys1 : keys c1 = others k (k0 :: ks) ++ [k]).
    { unfold keys, c1. cbn [entries]. rewrite List.map_app, keys_remove.
      fold (keys full). rewrite Hkeys. reflexivity. }
    assert (Hlen1 : length (others k (k0 :: ks)) = length ks).
    { pose proof (others_length k (k0 :: ks) Hks Hk) as H. cbn [length] in H. lia. }
    assert (Hfinal : keys (set now knew v None c1) =
                     List.tl (others k (k0 :: ks)) ++ [k; knew]).
    { rewrite set_new_when_full.
      - rewrite Hkeys1, tl_app, <- app_assoc; [reflexivity|].
        intros Hnil. rewrite Hnil in Hlen1. cbn in Hlen1. lia.
      - unfold c1. cbn [maxSize]. lia.
      - unfold c1. cbn [maxSize entries].
        rewrite length_app, <- (length_map key), keys_remove.
        fold (keys full). rewrite Hkeys, Hlen1. cbn. lia.
      - rewrite Hkeys1. intros Hin. apply elem_of_app in Hin as [Hin|Hin].
        + apply Hknew. eapply others_subset, Hin.
        + apply list_elem_of_singleton in Hin. subst knew. contradiction. }
    split; [exact Hfinal|].
    rewrite Hfinal. apply elem_of_app. right. left.
Qed.

Lemma lru_evicts_the_least_recently_accessed_witness :
  let full := set_all 0 ["a"; "b"; "c"] (JNum 1) (empty 300000 3) in
  keys (set 0 "d" (JNum 1) None full) = ["b"; "c"; "d"] /\
  keys (set 0 "d" (JNum 1) None (snd (get 0 "a" full))) = ["c"; "a"; "d"].
Proof.
  intros full.
  destruct (lru_evicts_the_least_recently_accessed 3 0 300000 (JNum 1) "a" ["b"; "c"] "d")
    as (_ & Hset & Hget);
    [vm_compute; discriminate | reflexivity | repeat constructor; set_solver |].
  split; [exact Hset|].
  destruct (Hget "a") as (_ & Hkeys & _); [lia | left | exact Hkeys].
Defined.

End InProcess.
